(** * XCTest build script: dispatcher, platform strategies and file helpers

    A shallow embedding of [build_script.py], [bootstrap/strategy.py] and
    [bootstrap/os.py].  Python strings are [string]; the process state
    (file system, working directory, standard output, commands handed to
    the shell) is threaded explicitly; exceptions and [exit] are outcomes.

    [bootstrap/strategy.py] calls [_note], [_mkdirp], [symlink_force] and
    [main] without defining them: they are [note], [mkdirp] and
    [symlink_force] of [bootstrap/os.py] and [main] of [build_script.py],
    the only definitions of those helpers in the repository.  Likewise
    [build_script.py] names the two strategy classes of
    [bootstrap/strategy.py]. *)

From Stdlib Require Import Ascii String.
From stdpp Require Import gmap strings list fin_maps.

Open Scope string_scope.
Open Scope list_scope.

(** ** posixpath: pure string functions *)

Module PosixPath.

Definition sep : ascii := "/"%char.

Definition is_sep (c : ascii) : bool := bool_decide (c = sep).

(** [s.startswith('/')] *)
Definition startswith_sep (s : string) : bool :=
  match s with
  | String c _ => is_sep c
  | EmptyString => false
  end.

(** [s.endswith('/')] *)
Fixpoint endswith_sep (s : string) : bool :=
  match s with
  | EmptyString => false
  | String c EmptyString => is_sep c
  | String _ r => endswith_sep r
  end.

Definition is_empty (s : string) : bool :=
  match s with EmptyString => true | _ => false end.

(** One round of the loop of [posixpath.join]:
<<
    if b.startswith(sep): path = b
    elif not path or path.endswith(sep): path += b
    else: path += sep + b
>> *)
Definition join_step (path b : string) : string :=
  if startswith_sep b then b
  else if is_empty path || endswith_sep path then path +:+ b
  else path +:+ "/" +:+ b.

(** [os.path.join(a, *p)] *)
Definition join (a : string) (p : list string) : string :=
  fold_left join_step p a.

(** [s.lstrip('/')] *)
Fixpoint lstrip_sep (s : string) : string :=
  match s with
  | String c r => if is_sep c then lstrip_sep r else s
  | EmptyString => EmptyString
  end.

(** [s.rstrip('/')] *)
Fixpoint rstrip_sep (s : string) : string :=
  match s with
  | EmptyString => EmptyString
  | String c r =>
      let r' := rstrip_sep r in
      if is_sep c && is_empty r' then EmptyString else String c r'
  end.

(** [s.strip('/')] *)
Definition strip_sep (s : string) : string := rstrip_sep (lstrip_sep s).

(** [s.split('/')]: always at least one field. *)
Fixpoint split_sep (s : string) : list string :=
  match s with
  | EmptyString => [EmptyString]
  | String c r =>
      if is_sep c then EmptyString :: split_sep r
      else match split_sep r with
           | w :: ws => String c w :: ws
           | [] => [String c EmptyString]
           end
  end.

(** ['/'.join(comps)] *)
Fixpoint sep_join (comps : list string) : string :=
  match comps with
  | [] => EmptyString
  | [c] => c
  | c :: cs => c +:+ "/" +:+ sep_join cs
  end.

(** [os.path.basename(p)]: what follows the last separator. *)
Definition basename (p : string) : string :=
  List.last (split_sep p) EmptyString.

(** [os.path.dirname(p)]: the text up to the last separator, without
    trailing separators unless it consists of separators only. *)
Definition dirname (p : string) : string :=
  let head :=
    match split_sep p with
    | [] | [_] => EmptyString
    | fields => sep_join (removelast fields) +:+ "/"
    end in
  if is_empty (rstrip_sep head) then head else rstrip_sep head.

(** [os.path.isabs(p)] *)
Definition isabs (p : string) : bool := startswith_sep p.

(** The loop of [posixpath.normpath], with [new_comps] kept reversed. *)
Fixpoint normpath_comps (initial_slashes : nat) (comps rev_new : list string)
  : list string :=
  match comps with
  | [] => rev rev_new
  | comp :: rest =>
      if bool_decide (comp = "") || bool_decide (comp = ".")
      then normpath_comps initial_slashes rest rev_new
      else if negb (bool_decide (comp = ".."))
              || (bool_decide (initial_slashes = 0%nat)
                  && bool_decide (rev_new = []))
              || match rev_new with
                 | top :: _ => bool_decide (top = "..")
                 | [] => false
                 end
      then normpath_comps initial_slashes rest (comp :: rev_new)
      else normpath_comps initial_slashes rest (tail rev_new)
  end.

Definition count_initial_slashes (path : string) : nat :=
  match path with
  | String c1 (String c2 (String c3 _)) =>
      if is_sep c1 then if is_sep c2 then if is_sep c3 then 1 else 2 else 1
      else 0
  | String c1 (String c2 EmptyString) =>
      if is_sep c1 then if is_sep c2 then 2 else 1 else 0
  | String c1 EmptyString => if is_sep c1 then 1 else 0
  | EmptyString => 0
  end%nat.

Definition repeat_sep (n : nat) : string :=
  match n with
  | 0 => ""
  | 1 => "/"
  | _ => "//"
  end%nat.

(** [os.path.normpath(path)] *)
Definition normpath (path : string) : string :=
  if is_empty path then "."
  else
    let n := count_initial_slashes path in
    let r := repeat_sep n +:+ sep_join (normpath_comps n (split_sep path) []) in
    if is_empty r then "." else r.

(** [os.path.abspath(path)], the working directory made explicit. *)
Definition abspath (cwd path : string) : string :=
  normpath (if isabs path then path else join cwd [path]).

End PosixPath.

(** ** The platform strategies *)

Inductive strategy := DarwinStrategy | GenericUnixStrategy.

(** [GenericUnixStrategy.core_foundation_build_dir] *)
Definition core_foundation_build_dir
  (foundation_build_dir foundation_install_prefix : string) : string :=
  PosixPath.join foundation_build_dir
    [PosixPath.strip_sep foundation_install_prefix; "lib"; "swift"].

(** ** The file system

    Entries are keyed by their canonical location: the list of directory
    names from the root, with no [.], [..] or symbolic link left in it.
    The root itself is always a directory. *)

Inductive node := Dir | File | Symlink (target : string).

Inductive errno := EEXIST | ENOENT | ENOTDIR | EISDIR | ELOOP.

#[global] Instance node_eq_dec : EqDecision node.
Proof. solve_decision. Defined.

#[global] Instance errno_eq_dec : EqDecision errno.
Proof. solve_decision. Defined.

Abbreviation filesystem := (gmap (list string) node).

(** Where a path leads: an existing entry, or a free name in an existing
    directory. *)
Inductive located :=
  | Found (key : list string) (n : node)
  | Missing (key : list string).

Module Fs.

(** The names of a path; a trailing separator stands for a final [.], as
    in the kernel's lookup. *)
Definition comps_of (p : string) : list string :=
  List.filter (fun c => negb (PosixPath.is_empty c)) (PosixPath.split_sep p)
  ++ (if PosixPath.endswith_sep p then ["."] else []).

(** Linux gives up after 40 symbolic links in one lookup. *)
Definition max_links : nat := 40.

(** Path lookup from the canonical directory [cur].  [follow] says whether
    a symbolic link in final position is followed ([stat]) or is itself
    the answer ([lstat], [symlink], [unlink]). *)
Fixpoint walk (links : nat) (follow : bool) (fs : filesystem)
    (cur comps : list string) {struct links} : errno + located :=
  match links with
  | 0%nat => inl ELOOP
  | S links' =>
      (fix go (cur comps : list string) {struct comps} : errno + located :=
         match comps with
         | [] => inr (Found cur Dir)
         | c :: rest =>
             if bool_decide (c = ".") then go cur rest
             else if bool_decide (c = "..") then go (removelast cur) rest
             else
               let key := cur ++ [c] in
               match fs !! key with
               | None =>
                   match rest with
                   | [] => inr (Missing key)
                   | _ => inl ENOENT
                   end
               | Some Dir => go key rest
               | Some File =>
                   match rest with
                   | [] => inr (Found key File)
                   | _ => inl ENOTDIR
                   end
               | Some (Symlink t) =>
                   match rest, follow with
                   | [], false => inr (Found key (Symlink t))
                   | _, _ =>
                       walk links' follow fs
                         (if PosixPath.isabs t then [] else cur)
                         (comps_of t ++ rest)
                   end
               end
         end) cur comps
  end.

(** Lookup of a path string by a process whose working directory is
    [cwd] (an absolute path).  The empty path names nothing. *)
Definition locate (follow : bool) (fs : filesystem) (cwd p : string)
  : errno + located :=
  if PosixPath.is_empty p then inl ENOENT
  else walk (S max_links) follow fs []
         (if PosixPath.isabs p then comps_of p else comps_of cwd ++ comps_of p).

(** [os.path.exists]: [stat] succeeds. *)
Definition exists_ (fs : filesystem) (cwd p : string) : bool :=
  match locate true fs cwd p with
  | inr (Found _ _) => true
  | _ => false
  end.

(** [os.path.isdir]: [stat] succeeds on a directory. *)
Definition isdir (fs : filesystem) (cwd p : string) : bool :=
  match locate true fs cwd p with
  | inr (Found _ Dir) => true
  | _ => false
  end.

(** [os.readlink], for stating where a link points. *)
Definition readlink (fs : filesystem) (cwd p : string) : option string :=
  match locate false fs cwd p with
  | inr (Found _ (Symlink t)) => Some t
  | _ => None
  end.

(** [symlink(2)] *)
Definition symlink (target p : string) (fs : filesystem) (cwd : string)
  : errno + filesystem :=
  if PosixPath.is_empty target then inl ENOENT
  else match locate false fs cwd p with
       | inl e => inl e
       | inr (Found _ _) => inl EEXIST
       | inr (Missing key) => inr (<[key := Symlink target]> fs)
       end.

(** [unlink(2)], which [os.remove] calls. *)
Definition unlink (p : string) (fs : filesystem) (cwd : string)
  : errno + filesystem :=
  match locate false fs cwd p with
  | inl e => inl e
  | inr (Missing _) => inl ENOENT
  | inr (Found _ Dir) => inl EISDIR
  | inr (Found key _) => inr (delete key fs)
  end.

(** [mkdir -p] on one operand.  Every prefix of the path is taken in
    turn: one that leads to a directory is kept, a free name is made a
    directory, and anything else ends the command.  What was made before
    a failure stays. *)
Fixpoint mkdir_p_prefixes (fs : filesystem) (done_comps comps : list string)
  : bool * filesystem :=
  match comps with
  | [] => (true, fs)
  | c :: rest =>
      let prefix := done_comps ++ [c] in
      match walk (S max_links) true fs [] prefix with
      | inr (Found _ Dir) => mkdir_p_prefixes fs prefix rest
      | _ =>
          match walk (S max_links) false fs [] prefix with
          | inr (Missing key) =>
              mkdir_p_prefixes (<[key := Dir]> fs) prefix rest
          | _ => (false, fs)
          end
      end
  end.

Definition mkdir_p (fs : filesystem) (cwd p : string) : bool * filesystem :=
  if PosixPath.isabs p then mkdir_p_prefixes fs [] (comps_of p)
  else if isdir fs cwd cwd then mkdir_p_prefixes fs (comps_of cwd) (comps_of p)
  else (false, fs).

End Fs.

(** ** The process: state, exceptions and the effect monad *)

Inductive exn :=
  | OSError (e : errno)
  | IOError (msg : string)
  | CalledProcessError (status : Z) (cmd : string)
  | SystemExit (code : Z)
  | TypeError
  | AttributeError (name : string)
  | RecursionError.

Inductive outcome (A : Type) :=
  | Return (a : A)
  | Raise (e : exn).
Arguments Return {A} a.
Arguments Raise {A} e.

(** What the script can observe or change: the file system, the working
    directory, the lines it printed, the commands it gave to the shell, and
    how many temporary directories it asked for. *)
Record world := World {
  fs : filesystem;
  cwd : string;
  stdout : list string;
  executed : list string;
  tmp_count : nat
}.

Definition set_fs (f : filesystem) (w : world) : world :=
  World f (cwd w) (stdout w) (executed w) (tmp_count w).

Definition M (A : Type) : Type := world -> outcome A * world.

Definition ret {A} (a : A) : M A := fun w => (Return a, w).

Definition raise {A} (e : exn) : M A := fun w => (Raise e, w).

Definition bind {A B} (m : M A) (k : A -> M B) : M B :=
  fun w =>
    match m w with
    | (Return a, w') => k a w'
    | (Raise e, w') => (Raise e, w')
    end.

(** [try: m except OSError as e: h e]: other exceptions pass through. *)
Definition try_OSError {A} (m : M A) (h : errno -> M A) : M A :=
  fun w =>
    match m w with
    | (Raise (OSError e), w') => h e w'
    | r => r
    end.

(** [m] never raises [IOError]. *)
Definition no_IOError {A} (m : M A) : Prop :=
  forall w msg, fst (m w) <> Raise (IOError msg).

Declare Scope M_scope.
Delimit Scope M_scope with M.
Bind Scope M_scope with M.
Notation "x <- m ;; k" := (bind m (fun x => k))
  (at level 100, m at next level, k at level 200, right associativity)
  : M_scope.
Notation "m ;; k" := (bind m (fun _ => k))
  (at level 100, k at level 200, right associativity) : M_scope.
Open Scope M_scope.

(** Lift a file-system call: its error becomes an [OSError]. *)
Definition os_call (f : filesystem -> string -> errno + filesystem) : M unit :=
  fun w =>
    match f (fs w) (cwd w) with
    | inl e => (Raise (OSError e), w)
    | inr f' => (Return tt, set_fs f' w)
    end.

Definition os_symlink (target p : string) : M unit :=
  os_call (Fs.symlink target p).

Definition os_remove (p : string) : M unit := os_call (Fs.unlink p).

Definition os_path_exists (p : string) : M bool :=
  fun w => (Return (Fs.exists_ (fs w) (cwd w) p), w).

Definition os_path_isdir (p : string) : M bool :=
  fun w => (Return (Fs.isdir (fs w) (cwd w) p), w).

(** [os.path.abspath] reads the working directory. *)
Definition os_path_abspath (p : string) : M string :=
  fun w => (Return (PosixPath.abspath (cwd w) p), w).

(** [print(line)] *)
Definition print (line : string) : M unit :=
  fun w =>
    (Return tt,
     World (fs w) (cwd w) (stdout w ++ [line]) (executed w) (tmp_count w)).

(** ** The shell

    [subprocess.check_call(command, shell=True)] hands the command text to
    [/bin/sh], which splits it into words at spaces.  Only [mkdir -p] on
    plain words is interpreted here; every other command (the compiler,
    [xcodebuild], [lit], [cp]) and every command that uses quoting,
    expansion or redirection is left to the host's [tools]. *)

Module Shell.

(** Split at spaces; empty fields vanish, as with [IFS] splitting. *)
Fixpoint fields (s : string) : list string :=
  match s with
  | EmptyString => [EmptyString]
  | String c r =>
      if bool_decide (c = " "%char) then EmptyString :: fields r
      else match fields r with
           | w :: ws => String c w :: ws
           | [] => [String c EmptyString]
           end
  end.

Definition words (s : string) : list string :=
  List.filter (fun w => negb (PosixPath.is_empty w)) (fields s).

(** Characters the shell passes through unchanged inside a word. *)
Definition plain_char (c : ascii) : bool :=
  let n := nat_of_ascii c in
  ((48 <=? n) && (n <=? 57) || (65 <=? n) && (n <=? 90)
   || (97 <=? n) && (n <=? 122)
   || bool_decide (c ∈ ["/"; "."; "_"; "-"; "+"; ","; ":"; "@"; "%"]%char))%nat.

Fixpoint plain (s : string) : bool :=
  match s with
  | EmptyString => true
  | String c r => plain_char c && plain r
  end.

Definition is_option (w : string) : bool :=
  match w with
  | String c _ => bool_decide (c = "-"%char)
  | EmptyString => false
  end.

(** [mkdir -p op1 op2 ...]: every operand is tried; the status is 0 when
    all of them succeeded. *)
Fixpoint mkdir_p_all (fs : filesystem) (cwd : string) (ops : list string)
  : bool * filesystem :=
  match ops with
  | [] => (true, fs)
  | op :: rest =>
      let '(ok, fs1) := Fs.mkdir_p fs cwd op in
      let '(ok', fs2) := mkdir_p_all fs1 cwd rest in
      (ok && ok', fs2)
  end.

Section Exec.

Variable tools : string -> filesystem -> string -> Z * filesystem.

(** The exit status and the file system after [sh -c cmd]. *)
Definition exec (cmd : string) (fs : filesystem) (cwd : string)
  : Z * filesystem :=
  match words cmd with
  | "mkdir" :: "-p" :: op :: ops =>
      if forallb plain (op :: ops) && negb (existsb is_option (op :: ops))
      then
        let '(ok, fs') := mkdir_p_all fs cwd (op :: ops) in
        ((if ok then 0 else 1)%Z, fs')
      else tools cmd fs cwd
  | _ => tools cmd fs cwd
  end.

End Exec.

End Shell.

(** ** bootstrap/os.py *)

Section Host.

(** What the external commands of the host do to the file system. *)
Variable tools : string -> filesystem -> string -> Z * filesystem.

(** [note(msg)] *)
Definition note (msg : string) : M unit := print ("xctest-build: " +:+ msg).

(** [subprocess.check_call(command, shell=True)] *)
Definition check_call (command : string) : M unit :=
  fun w =>
    let '(status, fs') := Shell.exec tools command (fs w) (cwd w) in
    let w' := World fs' (cwd w) (stdout w) (executed w ++ [command])
                (tmp_count w) in
    if bool_decide (status = 0%Z) then (Return tt, w')
    else (Raise (CalledProcessError status command), w').

(** [run(command)] *)
Definition run (command : string) : M unit :=
  note command ;; check_call command.

(** [mkdirp(path)] *)
Definition mkdirp (path : string) : M unit :=
  e <- os_path_exists path ;;
  if negb e then run ("mkdir -p " +:+ path) else ret tt.

(** [symlink_force(target, link_name)] *)
Definition resolved_link_name (target link_name : string) : M string :=
  d <- os_path_isdir link_name ;;
  ret (if d then PosixPath.join link_name [PosixPath.basename target]
       else link_name).

Definition symlink_force (target link_name : string) : M unit :=
  link_name <- resolved_link_name target link_name ;;
  try_OSError (os_symlink target link_name)
    (fun e =>
       if bool_decide (e = EEXIST)
       then os_remove link_name ;; os_symlink target link_name
       else raise (OSError e)).

End Host.

(** ** argparse

    A parser is the table its [add_argument] calls build.  Parsing follows
    argparse for options spelled in full, [--option=value], positionals,
    defaults, [-h] and the final check of required arguments.  Abbreviated
    long options are not modelled: a token that starts with [-] and is no
    option of the parser counts as unrecognized, and only a token that does
    not start with [-] is taken as a value. *)

Inductive operation := OpBuild | OpTest | OpInstall.

Inductive pyval :=
  | PNone
  | PStr (s : string)
  | PBool (b : bool)
  | PFunc (op : operation).

#[global] Instance operation_eq_dec : EqDecision operation.
Proof. solve_decision. Defined.

#[global] Instance pyval_eq_dec : EqDecision pyval.
Proof. solve_decision. Defined.

Abbreviation namespace := (gmap string pyval).

Inductive action := Store | StoreConst (const : string) | StoreTrue | Help.

Record argument := Argument {
  option_strings : list string;   (* empty for a positional *)
  dest : string;
  required : bool;
  default : pyval;
  arg_action : action
}.

Inductive parse_result :=
  | Parsed (ns : namespace)
  | ParseExit (code : Z).

(** A subparser: its arguments and the [func] that [set_defaults] binds. *)
Record subparser := Subparser {
  sub_name : string;
  sub_func : operation;
  sub_arguments : list argument
}.

Module Argparse.

Definition usage_error : parse_result := ParseExit 2.

Definition help_argument : argument :=
  Argument ["-h"; "--help"] "help" false PNone Help.

Definition is_positional (a : argument) : bool :=
  match option_strings a with [] => true | _ => false end.

Definition starts_with_dash (t : string) : bool :=
  match t with
  | String c _ => bool_decide (c = "-"%char)
  | EmptyString => false
  end.

(** [arg_string.split('=', 1)] when the token holds an [=]. *)
Fixpoint split_eq (t : string) : option (string * string) :=
  match t with
  | EmptyString => None
  | String c r =>
      if bool_decide (c = "="%char) then Some (EmptyString, r)
      else match split_eq r with
           | Some (o, v) => Some (String c o, v)
           | None => None
           end
  end.

Definition find_option (spec : list argument) (o : string) : option argument :=
  List.find (fun a => bool_decide (o ∈ option_strings a)) spec.

(** The option a token selects, with the value glued to it if any. *)
Definition parse_optional (spec : list argument) (t : string)
  : option (argument * option string) :=
  match find_option spec t with
  | Some a => Some (a, None)
  | None =>
      match split_eq t with
      | Some (o, v) =>
          match find_option spec o with
          | Some a => Some (a, Some v)
          | None => None
          end
      | None => None
      end
  end.

(** The namespace before any token is read. *)
Definition defaults (spec : list argument) (ns : namespace) : namespace :=
  fold_left
    (fun ns a =>
       match arg_action a with
       | Help => ns
       | _ => <[dest a := default a]> ns
       end) spec ns.

(** The end of [parse_args]: positionals left over, required options not
    seen and unrecognized arguments are all usage errors. *)
Definition finish (spec positionals : list argument) (seen : list string)
    (extras : bool) (ns : namespace) : parse_result :=
  match positionals with
  | _ :: _ => usage_error
  | [] =>
      if existsb (fun a => required a && negb (bool_decide (dest a ∈ seen)))
           spec
      then usage_error
      else if extras then usage_error
      else Parsed ns
  end.

Fixpoint consume (spec positionals : list argument) (seen : list string)
    (extras : bool) (ns : namespace) (tokens : list string) {struct tokens}
  : parse_result :=
  match tokens with
  | [] => finish spec positionals seen extras ns
  | t :: rest =>
      if starts_with_dash t then
        match parse_optional spec t with
        | None => consume spec positionals seen true ns rest
        | Some (a, explicit) =>
            match arg_action a, explicit with
            | Help, None => ParseExit 0
            | StoreTrue, None =>
                consume spec positionals (dest a :: seen) extras
                  (<[dest a := PBool true]> ns) rest
            | StoreConst c, None =>
                consume spec positionals (dest a :: seen) extras
                  (<[dest a := PStr c]> ns) rest
            | Store, Some v =>
                consume spec positionals (dest a :: seen) extras
                  (<[dest a := PStr v]> ns) rest
            | Store, None =>
                match rest with
                | v :: rest' =>
                    if starts_with_dash v then usage_error
                    else consume spec positionals (dest a :: seen) extras
                           (<[dest a := PStr v]> ns) rest'
                | [] => usage_error
                end
            | _, Some _ => usage_error
            end
        end
      else
        match positionals with
        | p :: ps =>
            consume spec ps (dest p :: seen) extras
              (<[dest p := PStr t]> ns) rest
        | [] => consume spec positionals seen true ns rest
        end
  end.

Definition sub_spec (sp : subparser) : list argument :=
  help_argument :: sub_arguments sp.

Definition parse_sub (sp : subparser) (tokens : list string) : parse_result :=
  consume (sub_spec sp) (List.filter is_positional (sub_spec sp)) [] false
    (defaults (sub_spec sp) {[ "func" := PFunc (sub_func sp) ]}) tokens.

(** The top-level parser: [-h], and the subcommand as its one positional,
    which takes every token after it. *)
Fixpoint parse_args (subs : list subparser) (extras : bool)
    (tokens : list string) : parse_result :=
  match tokens with
  | [] => usage_error
  | t :: rest =>
      if bool_decide (t ∈ ["-h"; "--help"]) then ParseExit 0
      else if starts_with_dash t then parse_args subs true rest
      else
        match List.find (fun sp => bool_decide (sub_name sp = t)) subs with
        | None => usage_error
        | Some sp =>
            match parse_sub sp rest with
            | Parsed ns => if extras then usage_error else Parsed ns
            | r => r
            end
        end
  end.

End Argparse.

(** ** bootstrap/strategy.py and build_script.py *)

(** [DarwinStrategy.requires_foundation_build_dir] and
    [GenericUnixStrategy.requires_foundation_build_dir] *)
Definition requires_foundation_build_dir (s : strategy) : bool :=
  match s with
  | DarwinStrategy => false
  | GenericUnixStrategy => true
  end.

Definition dquote : string := String (ascii_of_nat 34) EmptyString.

(** Python truth of a value, as in [if args.test:]. *)
Definition truthy (v : pyval) : bool :=
  match v with
  | PNone => false
  | PStr s => negb (PosixPath.is_empty s)
  | PBool b => b
  | PFunc _ => true
  end.

Definition is_not_None (v : pyval) : bool :=
  match v with PNone => false | _ => true end.

(** The three subparsers of [main], as their [add_argument] calls declare
    them.  [tmp] is the value of [tempfile.mkdtemp()]. *)
Section Parsers.

Variable s : strategy.
Variable SOURCE_DIR : string.
Variable tmp : string.

Definition build_parser : subparser :=
  Subparser "build" OpBuild
    [ Argument ["--swiftc"] "swiftc" true PNone Store;
      Argument ["--build-dir"] "build_dir" false (PStr tmp) Store;
      Argument ["--foundation-build-dir"] "foundation_build_dir"
        (requires_foundation_build_dir s) PNone Store;
      Argument ["--foundation-install-prefix"] "foundation_install_prefix"
        false (PStr "/usr") Store;
      Argument ["--libdispatch-build-dir"] "libdispatch_build_dir"
        false PNone Store;
      Argument ["--libdispatch-src-dir"] "libdispatch_src_dir"
        false PNone Store;
      Argument ["--module-install-path"] "module_path" false PNone Store;
      Argument ["--library-install-path"] "lib_path" false PNone Store;
      Argument ["--release"] "build_style" false (PStr "debug")
        (StoreConst "release");
      Argument ["--debug"] "build_style" false (PStr "debug")
        (StoreConst "debug");
      Argument ["--test"] "test" false (PBool false) StoreTrue ].

Definition test_parser : subparser :=
  Subparser "test" OpTest
    [ Argument [] "build_dir" true PNone Store;
      Argument ["--swiftc"] "swiftc" true PNone Store;
      Argument ["--lit"] "lit" false
        (PStr (PosixPath.join
                 (PosixPath.dirname SOURCE_DIR)
                 ["llvm"; "utils"; "lit"; "lit.py"])) Store;
      Argument ["--foundation-build-dir"] "foundation_build_dir"
        (requires_foundation_build_dir s) PNone Store;
      Argument ["--foundation-install-prefix"] "foundation_install_prefix"
        false (PStr "/usr") Store;
      Argument ["--libdispatch-build-dir"] "libdispatch_build_dir"
        false PNone Store;
      Argument ["--libdispatch-src-dir"] "libdispatch_src_dir"
        false PNone Store ].

Definition install_parser : subparser :=
  Subparser "install" OpInstall
    [ Argument [] "build_dir" true PNone Store;
      Argument ["-m"; "--module-install-path"] "module_install_path"
        false PNone Store;
      Argument ["-l"; "--library-install-path"] "library_install_path"
        false PNone Store ].

Definition subparsers : list subparser :=
  [build_parser; test_parser; install_parser].

End Parsers.

(** The argument list [main] hands to the parser:
<<
    if any([a in ["build", "test", "install", "-h", "--help"] for a in args]):
        parsed_args = parser.parse_args(args=args)
    else:
        parsed_args = parser.parse_args(args=["build"] + args)
>> *)
Definition known_tokens : list string :=
  ["build"; "test"; "install"; "-h"; "--help"].

Definition effective_args (args : list string) : list string :=
  if existsb (fun a => bool_decide (a ∈ known_tokens)) args
  then args
  else ["build"] ++ args.

Section Script.

(** The host: what external commands do to the file system, what [glob]
    finds, where the script lives, what [platform.system()] answers and
    the names [tempfile.mkdtemp] hands out. *)
Variable tools : string -> filesystem -> string -> Z * filesystem.
Variable glob : filesystem -> string -> string -> list string.
Variable SOURCE_DIR : string.
Variable platform_system : string.
Variable tmpname : nat -> string.

(** [args.name] *)
Definition attr (args : namespace) (name : string) : M pyval :=
  match args !! name with
  | Some v => ret v
  | None => raise (AttributeError name)
  end.

(** [os.path.abspath(v)]: only a string has a path. *)
Definition abspath_of (v : pyval) : M string :=
  match v with
  | PStr p => os_path_abspath p
  | _ => raise TypeError
  end.

(** A value used where the code needs a string method or a path part. *)
Definition str_of (v : pyval) : M string :=
  match v with
  | PStr p => ret p
  | _ => raise TypeError
  end.

(** [str.format] of a value. *)
Definition format_value (v : pyval) : string :=
  match v with
  | PStr p => p
  | PNone => "None"
  | PBool true => "True"
  | PBool false => "False"
  | PFunc _ => "<function>"
  end.

Definition os_glob (pattern : string) : M (list string) :=
  fun w => (Return (glob (fs w) (cwd w) pattern), w).

(** [" ".join(l)] *)
Fixpoint space_join (l : list string) : string :=
  match l with
  | [] => EmptyString
  | [x] => x
  | x :: xs => x +:+ " " +:+ space_join xs
  end.

(** [tempfile.mkdtemp()]: a fresh directory under a name of the host's
    choosing. *)
Definition mkdtemp : M string :=
  fun w =>
    let name := tmpname (tmp_count w) in
    match Fs.locate false (fs w) (cwd w) name with
    | inr (Missing key) =>
        (Return name,
         World (<[key := Dir]> (fs w)) (cwd w) (stdout w) (executed w)
           (S (tmp_count w)))
    | inr (Found _ _) => (Raise (OSError EEXIST), w)
    | inl e => (Raise (OSError e), w)
    end.

(** [strategy.py] calls the helpers of [bootstrap/os.py] under the names
    [_note] and [_mkdirp]. *)
Definition _note : string -> M unit := note.

Definition _mkdirp : string -> M unit := mkdirp tools.

(** *** DarwinStrategy *)

Definition DarwinStrategy_build (main : list string -> M unit)
    (args : namespace) : M unit :=
  v <- attr args "swiftc" ;;
  swiftc <- abspath_of v ;;
  v <- attr args "build_dir" ;;
  build_dir <- abspath_of v ;;
  run tools
    ("xcodebuild -workspace " +:+ SOURCE_DIR +:+ "/XCTest.xcworkspace "
     +:+ "-scheme SwiftXCTest "
     +:+ "SWIFT_EXEC=" +:+ dquote +:+ swiftc +:+ dquote +:+ " "
     +:+ "SWIFT_LINK_OBJC_RUNTIME=YES "
     +:+ "SYMROOT=" +:+ dquote +:+ build_dir +:+ dquote
     +:+ " OBJROOT=" +:+ dquote +:+ build_dir +:+ dquote) ;;
  t <- attr args "test" ;;
  if truthy t then main ["test"; "--swiftc"; swiftc; build_dir]
  else ret tt.

Definition DarwinStrategy_test (args : namespace) : M unit :=
  v <- attr args "swiftc" ;;
  swiftc <- abspath_of v ;;
  v <- attr args "build_dir" ;;
  build_dir <- abspath_of v ;;
  run tools
    ("xcodebuild -workspace " +:+ SOURCE_DIR +:+ "/XCTest.xcworkspace "
     +:+ "-scheme SwiftXCTestFunctionalTests "
     +:+ "SWIFT_EXEC=" +:+ dquote +:+ swiftc +:+ dquote +:+ " "
     +:+ "SWIFT_LINK_OBJC_RUNTIME=YES "
     +:+ "SYMROOT=" +:+ dquote +:+ build_dir +:+ dquote
     +:+ " OBJROOT=" +:+ dquote +:+ build_dir +:+ dquote +:+ " "
     +:+ "| grep -v " +:+ dquote +:+ "    export" +:+ dquote).

Definition install_not_supported : string :=
  "error: The install command is not supported on this platform".

Definition DarwinStrategy_install (args : namespace) : M unit :=
  _note install_not_supported ;;
  raise (SystemExit 1).

(** *** GenericUnixStrategy *)

Definition lit_missing_message (lit_path : string) : string :=
  "Could not find lit tester tool at path: " +:+ dquote +:+ lit_path
  +:+ dquote +:+ ". This tool is "
  +:+ "requred to run the test suite. Unless you specified a custom "
  +:+ "path to the tool using the " +:+ dquote +:+ "--lit" +:+ dquote
  +:+ " option, the lit tool will be "
  +:+ "found in the LLVM source tree, which is expected to be checked "
  +:+ "out in the same directory as swift-corelibs-xctest. If you do "
  +:+ "not have LLVM checked out at this path, you may follow the "
  +:+ "instructions for " +:+ dquote +:+ "Getting Sources for Swift and Related "
  +:+ "Projects" +:+ dquote +:+ " from the Swift project README in order to fix this "
  +:+ "error.".

(** The environment and command line of the test runner. *)
Definition lit_command (swiftc built_products_dir foundation_build_dir
    core_foundation_dir libdispatch_src_args lit_path : string) : string :=
  "SWIFT_EXEC=" +:+ swiftc +:+ " "
  +:+ "BUILT_PRODUCTS_DIR=" +:+ built_products_dir +:+ " "
  +:+ "FOUNDATION_BUILT_PRODUCTS_DIR=" +:+ foundation_build_dir +:+ " "
  +:+ "CORE_FOUNDATION_BUILT_PRODUCTS_DIR=" +:+ core_foundation_dir +:+ " "
  +:+ libdispatch_src_args +:+ " "
  +:+ lit_path +:+ " " +:+ "-sv --no-progress-bar" +:+ " "
  +:+ PosixPath.join SOURCE_DIR ["Tests"; "Functional"].

Definition libdispatch_so (libdispatch_build_dir : string) : string :=
  PosixPath.join libdispatch_build_dir ["src"; ".libs"; "libdispatch.so"].

Definition GenericUnixStrategy_test (args : namespace) : M unit :=
  v <- attr args "lit" ;;
  lit_path <- abspath_of v ;;
  e <- os_path_exists lit_path ;;
  if negb e then raise (IOError (lit_missing_message lit_path))
  else
    v <- attr args "foundation_build_dir" ;;
    foundation_build_dir <- abspath_of v ;;
    v <- attr args "foundation_install_prefix" ;;
    prefix <- str_of v ;;
    let core_foundation_dir :=
      core_foundation_build_dir foundation_build_dir prefix in
    lbd <- attr args "libdispatch_build_dir" ;;
    (if truthy lbd then
       _ <- abspath_of lbd ;;
       d <- str_of lbd ;;
       symlink_force (libdispatch_so d) foundation_build_dir
     else ret tt) ;;
    lsd <- attr args "libdispatch_src_dir" ;;
    libdispatch_src_args <-
      (if truthy lsd && truthy lbd then
         src <- abspath_of lsd ;;
         d <- str_of lbd ;;
         ret ("LIBDISPATCH_SRC_DIR=" +:+ src +:+ " LIBDISPATCH_BUILD_DIR="
              +:+ PosixPath.join d ["src"; ".libs"])
       else ret "") ;;
    v <- attr args "swiftc" ;;
    swiftc <- abspath_of v ;;
    bd <- attr args "build_dir" ;;
    run tools
      (lit_command swiftc (format_value bd) foundation_build_dir
         core_foundation_dir libdispatch_src_args lit_path).

Definition compile_command (swiftc style_options build_dir
    foundation_build_dir core_foundation_dir libdispatch_args
    source_paths : string) : string :=
  swiftc +:+ " -Xcc -fblocks -c " +:+ style_options
  +:+ " -emit-object -emit-module "
  +:+ "-module-name XCTest -module-link-name XCTest -parse-as-library "
  +:+ "-emit-module-path " +:+ build_dir +:+ "/XCTest.swiftmodule "
  +:+ "-force-single-frontend-invocation "
  +:+ "-I " +:+ foundation_build_dir +:+ " -I " +:+ core_foundation_dir
  +:+ " " +:+ libdispatch_args +:+ " "
  +:+ source_paths +:+ " -o " +:+ build_dir +:+ "/XCTest.o".

Definition link_command (swiftc build_dir foundation_build_dir : string)
  : string :=
  swiftc +:+ " -emit-library " +:+ build_dir +:+ "/XCTest.o "
  +:+ "-L " +:+ foundation_build_dir
  +:+ " -lswiftGlibc -lswiftCore -lFoundation -lm "
  +:+ "-Xlinker -rpath=\$ORIGIN "
  +:+ "-o " +:+ build_dir +:+ "/libXCTest.so".

(** The argument lists with which [build] re-enters [main]. *)
Definition test_chain_args (swiftc foundation_build_dir build_dir : string)
  : list string :=
  ["test"; "--swiftc"; swiftc;
   "--foundation-build-dir"; foundation_build_dir; build_dir].

Definition install_chain_args (build_dir : string) (module_path lib_path : pyval)
  : list string :=
  ["install"; build_dir;
   "--module-install-path"; format_value module_path;
   "--library-install-path"; format_value lib_path].

(** [GenericUnixStrategy.build] up to and including the link command;
    it yields the compiler, the build directory and the Foundation
    directory that the rest of [build] uses. *)
Definition GenericUnixStrategy_compile_and_link (args : namespace)
  : M (string * string * string) :=
  v <- attr args "swiftc" ;;
  swiftc <- abspath_of v ;;
  v <- attr args "build_dir" ;;
  build_dir <- abspath_of v ;;
  v <- attr args "foundation_build_dir" ;;
  foundation_build_dir <- abspath_of v ;;
  v <- attr args "foundation_install_prefix" ;;
  prefix <- str_of v ;;
  let core_foundation_dir :=
    core_foundation_build_dir foundation_build_dir prefix in
  lbd <- attr args "libdispatch_build_dir" ;;
  libdispatch_build_dir <-
    (if truthy lbd then abspath_of lbd else ret "") ;;
  lsd <- attr args "libdispatch_src_dir" ;;
  libdispatch_src_dir <-
    (if truthy lsd then abspath_of lsd else ret "") ;;
  _mkdirp build_dir ;;
  sourcePaths <-
    os_glob (PosixPath.join SOURCE_DIR ["Sources"; "XCTest"; "*"; "*.swift"]) ;;
  style <- attr args "build_style" ;;
  let style_options :=
    if bool_decide (style = PStr "debug") then "-g" else "-O" in
  let libdispatch_args :=
    if truthy lbd && truthy lsd
    then "-I " +:+ libdispatch_build_dir +:+ "/src -I "
         +:+ libdispatch_src_dir +:+ " "
    else "" in
  run tools
    (compile_command swiftc style_options build_dir foundation_build_dir
       core_foundation_dir libdispatch_args (space_join sourcePaths)) ;;
  run tools (link_command swiftc build_dir foundation_build_dir) ;;
  ret (swiftc, build_dir, foundation_build_dir).

(** The rest of [GenericUnixStrategy.build]: the two chained calls of
    [main] and the closing note. *)
Definition GenericUnixStrategy_chain (main : list string -> M unit)
    (args : namespace) (swiftc build_dir foundation_build_dir : string)
  : M unit :=
  t <- attr args "test" ;;
  (if truthy t
   then main (test_chain_args swiftc foundation_build_dir build_dir)
   else ret tt) ;;
  module_path <- attr args "module_path" ;;
  lib_path <- attr args "lib_path" ;;
  (if is_not_None module_path && is_not_None lib_path
   then main (install_chain_args build_dir module_path lib_path)
   else ret tt) ;;
  _note "Done.".

Definition GenericUnixStrategy_build (main : list string -> M unit)
    (args : namespace) : M unit :=
  built <- GenericUnixStrategy_compile_and_link args ;;
  let '(swiftc, build_dir, foundation_build_dir) := built in
  GenericUnixStrategy_chain main args swiftc build_dir foundation_build_dir.

Definition cp_command (src dst : string) : string :=
  "cp " +:+ src +:+ " " +:+ dst.

Definition GenericUnixStrategy_install (args : namespace) : M unit :=
  v <- attr args "build_dir" ;;
  build_dir <- abspath_of v ;;
  v <- attr args "module_install_path" ;;
  module_install_path <- abspath_of v ;;
  v <- attr args "library_install_path" ;;
  library_install_path <- abspath_of v ;;
  _mkdirp module_install_path ;;
  _mkdirp library_install_path ;;
  run tools (cp_command (PosixPath.join build_dir ["libXCTest.so"])
               (PosixPath.join library_install_path ["libXCTest.so"])) ;;
  run tools (cp_command (PosixPath.join build_dir ["XCTest.swiftmodule"])
               (PosixPath.join module_install_path ["XCTest.swiftmodule"])) ;;
  run tools (cp_command (PosixPath.join build_dir ["XCTest.swiftdoc"])
               (PosixPath.join module_install_path ["XCTest.swiftdoc"])).

(** *** build_script.py *)

(** [strategy.build], [strategy.test], [strategy.install] *)
Definition operation_of (s : strategy) (op : operation)
    (main : list string -> M unit) : namespace -> M unit :=
  match s, op with
  | DarwinStrategy, OpBuild => DarwinStrategy_build main
  | DarwinStrategy, OpTest => DarwinStrategy_test
  | DarwinStrategy, OpInstall => DarwinStrategy_install
  | GenericUnixStrategy, OpBuild => GenericUnixStrategy_build main
  | GenericUnixStrategy, OpTest => GenericUnixStrategy_test
  | GenericUnixStrategy, OpInstall => GenericUnixStrategy_install
  end.

Definition active_strategy : strategy :=
  if bool_decide (platform_system = "Darwin") then DarwinStrategy
  else GenericUnixStrategy.

(** The parser is built (which evaluates [tempfile.mkdtemp()] for the
    default of [--build-dir]), the tokens are parsed, and the function
    bound to the subcommand is called. *)
Definition parse_and_dispatch (main : list string -> M unit)
    (tokens : list string) : M unit :=
  tmp <- mkdtemp ;;
  match Argparse.parse_args (subparsers active_strategy SOURCE_DIR tmp)
          false tokens with
  | ParseExit code => raise (SystemExit code)
  | Parsed parsed_args =>
      f <- attr parsed_args "func" ;;
      match f with
      | PFunc op => operation_of active_strategy op main parsed_args
      | _ => raise TypeError
      end
  end.

(** [main(args)].  [depth] bounds the nesting of calls, as the
    interpreter's recursion limit does. *)
Fixpoint main (depth : nat) (args : list string) : M unit :=
  match depth with
  | 0%nat => raise RecursionError
  | S depth' => parse_and_dispatch (main depth') (effective_args args)
  end.

End Script.

(** ** Definitions for the statements, and a concrete host *)

(** Every external command succeeds and leaves the file system alone. *)
Definition quiet_tools : string -> filesystem -> string -> Z * filesystem :=
  fun _ f _ => (0%Z, f).

Definition two_sources : filesystem -> string -> string -> list string :=
  fun _ _ _ =>
    ["/src/Sources/XCTest/Public/XCTestCase.swift";
     "/src/Sources/XCTest/Private/PrintObserver.swift"].

Definition tmp_names (n : nat) : string :=
  match n with
  | 0%nat => "/tmp/tmpA"
  | 1%nat => "/tmp/tmpB"
  | 2%nat => "/tmp/tmpC"
  | _ => "/tmp/tmpD"
  end.

(** [s.startswith(p)] *)
Fixpoint starts_with (p s : string) : bool :=
  match p with
  | EmptyString => true
  | String a p' =>
      match s with
      | String b s' => bool_decide (a = b) && starts_with p' s'
      | EmptyString => false
      end
  end.

(** [s] consists of separators only. *)
Fixpoint all_sep (s : string) : bool :=
  match s with
  | EmptyString => true
  | String c r => PosixPath.is_sep c && all_sep r
  end.

(** A process in the root directory of an empty file system. *)
Definition empty_world : world := World ∅ "/" [] [] 0.

(** A process in the root directory, which holds one directory [/a]. *)
Definition one_dir_world : world := World {[ ["a"] := Dir ]} "/" [] [] 0.

(** A process in [/] with a Foundation build directory [/f] and the lit
    tool at [/lit.py]. *)
Definition test_world : world :=
  World {[ ["f"] := Dir; ["lit.py"] := File ]} "/" [] [] 0.

(** The attributes [GenericUnixStrategy.test] reads, as the test subparser
    leaves them: strings, or [None] for the two libdispatch options. *)
Record test_config (args : namespace)
    (lit foundation prefix swiftc : string) (lbd lsd bd : pyval) : Prop := {
  cfg_lit : args !! "lit" = Some (PStr lit);
  cfg_foundation : args !! "foundation_build_dir" = Some (PStr foundation);
  cfg_prefix : args !! "foundation_install_prefix" = Some (PStr prefix);
  cfg_swiftc : args !! "swiftc" = Some (PStr swiftc);
  cfg_lbd : args !! "libdispatch_build_dir" = Some lbd;
  cfg_lsd : args !! "libdispatch_src_dir" = Some lsd;
  cfg_bd : args !! "build_dir" = Some bd;
  cfg_lbd_shape : lbd = PNone \/ exists d, lbd = PStr d;
  cfg_lsd_shape : lsd = PNone \/ exists s, lsd = PStr s
}.

(** The value of [libdispatch_src_args] in [GenericUnixStrategy.test]. *)
Definition libdispatch_src_args_of (cwd : string) (lsd lbd : pyval) : string :=
  match lsd, lbd with
  | PStr s, PStr d =>
      if truthy lsd && truthy lbd
      then "LIBDISPATCH_SRC_DIR=" +:+ PosixPath.abspath cwd s
           +:+ " LIBDISPATCH_BUILD_DIR=" +:+ PosixPath.join d ["src"; ".libs"]
      else ""
  | _, _ => ""
  end.

(** The namespace of a successful parse. *)
Definition parsed (r : parse_result) : namespace :=
  match r with
  | Parsed ns => ns
  | ParseExit _ => ∅
  end.

(** Two test invocations: with and without [--libdispatch-build-dir]. *)
Definition linked_test_args : namespace :=
  parsed (Argparse.parse_sub (test_parser GenericUnixStrategy "/src")
            ["--swiftc"; "/s"; "--foundation-build-dir"; "/f";
             "--lit"; "/lit.py"; "--libdispatch-build-dir"; "/d"; "/b"]).

Definition plain_test_args : namespace :=
  parsed (Argparse.parse_sub (test_parser GenericUnixStrategy "/src")
            ["--swiftc"; "/s"; "--foundation-build-dir"; "/f";
             "--lit"; "/lit.py"; "/b"]).

(** A process in [/] with [/tmp] and a Foundation build directory [/f];
    the lit tool is not there. *)
Definition build_world : world :=
  World {[ ["tmp"] := Dir; ["f"] := Dir ]} "/" [] [] 0.

(** The namespaces the parser makes of the argument lists with which
    [build] re-enters [main]. *)
Definition test_chain_namespace (SOURCE_DIR swiftc foundation_build_dir
    build_dir : string) : namespace :=
  parsed (Argparse.parse_sub (test_parser GenericUnixStrategy SOURCE_DIR)
            ["--swiftc"; swiftc;
             "--foundation-build-dir"; foundation_build_dir; build_dir]).

Definition install_chain_namespace (build_dir module_path lib_path : string)
  : namespace :=
  parsed (Argparse.parse_sub install_parser
            [build_dir; "--module-install-path"; module_path;
             "--library-install-path"; lib_path]).

(** A build invocation that asks for the tests and gives both install
    paths. *)
Definition chained_build_tokens : list string :=
  ["--swiftc"; "/s"; "--foundation-build-dir"; "/f"; "--build-dir"; "/b";
   "--test"; "--module-install-path"; "/m"; "--library-install-path"; "/l"].

Definition chained_build_args : namespace :=
  parsed (Argparse.parse_sub (build_parser GenericUnixStrategy "/tmp/tmpA")
            chained_build_tokens).


(** A process in [/] where the directory [/f] already holds a directory
    named [libdispatch.so]. *)
Definition occupied_world : world :=
  World {[ ["f"] := Dir; ["f"; "libdispatch.so"] := Dir ]} "/" [] [] 0.


(** The line [run] prints for a command. *)
Definition note_line (command : string) : string :=
  "xctest-build: " +:+ command.

(** [m] runs commands and prints lines only by adding to the two logs, it
    prints the line of every command it runs, in the same order, and it
    stays in its working directory. *)
Definition announces {A} (m : M A) : Prop :=
  forall w, exists cmds lines,
    executed (snd (m w)) = executed w ++ cmds
    /\ stdout (snd (m w)) = stdout w ++ lines
    /\ sublist (map note_line cmds) lines
    /\ cwd (snd (m w)) = cwd w.

(** When [m] ends in the failure of a command, that command had a non-zero
    status and was the last one run. *)
Definition fail_fast {A} (m : M A) : Prop :=
  forall w status command w',
    m w = (Raise (CalledProcessError status command), w') ->
    status <> 0%Z /\ exists before, executed w' = before ++ [command].

(** Every external command fails with status 1. *)
Definition failing_tools : string -> filesystem -> string -> Z * filesystem :=
  fun _ f _ => (1%Z, f).


(** The command of [DarwinStrategy.build]. *)
Definition darwin_build_command (SOURCE_DIR swiftc build_dir : string)
  : string :=
  "xcodebuild -workspace " +:+ SOURCE_DIR +:+ "/XCTest.xcworkspace "
  +:+ "-scheme SwiftXCTest "
  +:+ "SWIFT_EXEC=" +:+ dquote +:+ swiftc +:+ dquote +:+ " "
  +:+ "SWIFT_LINK_OBJC_RUNTIME=YES "
  +:+ "SYMROOT=" +:+ dquote +:+ build_dir +:+ dquote
  +:+ " OBJROOT=" +:+ dquote +:+ build_dir +:+ dquote.

(** The namespace the parser makes, under Darwin, of the argument list
    with which [DarwinStrategy.build] re-enters [main]. *)
Definition darwin_test_chain_namespace (SOURCE_DIR swiftc build_dir : string)
  : namespace :=
  parsed (Argparse.parse_sub (test_parser DarwinStrategy SOURCE_DIR)
            ["--swiftc"; swiftc; build_dir]).

(** The default of [--lit]. *)
Definition default_lit_path (SOURCE_DIR : string) : string :=
  PosixPath.join (PosixPath.dirname SOURCE_DIR)
    ["llvm"; "utils"; "lit"; "lit.py"].

(** A process in [/] with [/tmp]. *)
Definition tmp_world : world := World {[ ["tmp"] := Dir ]} "/" [] [] 0.

(** A build invocation under Darwin that asks for the tests and, to no
    effect, gives both install paths. *)
Definition darwin_build_args : namespace :=
  parsed (Argparse.parse_sub (build_parser DarwinStrategy "/tmp/tmpA")
            ["--swiftc"; "/s"; "--build-dir"; "/b"; "--test";
             "--module-install-path"; "/m"; "--library-install-path"; "/l"]).


(** The argument lists with which [build] re-enters [main] start with
    [test] or [install]. *)
Definition chained (tokens : list string) : Prop :=
  exists rest, tokens = "test" :: rest \/ tokens = "install" :: rest.


(** An install invocation with both paths. *)
Definition full_install_args : namespace :=
  parsed (Argparse.parse_sub install_parser
            ["/b"; "-m"; "/m"; "--library-install-path"; "/l"]).


(** [m] never lowers the number of temporary directories asked for. *)
Definition asks_only {A} (m : M A) : Prop :=
  forall w, tmp_count w <= tmp_count (snd (m w)).

(** * Properties *)

(** ** Strings and paths *)

Example core_foundation_build_dir_default :
  core_foundation_build_dir "/build/foundation-linux-x86_64/Foundation" "/usr"
  = "/build/foundation-linux-x86_64/Foundation/usr/lib/swift".
Proof. reflexivity. Qed.

Example abspath_relative :
  PosixPath.abspath "/home/u" "../x/./y//z/" = "/home/x/y/z".
Proof. reflexivity. Qed.

Example basename_of_library :
  PosixPath.basename "/d/src/.libs/libdispatch.so" = "libdispatch.so".
Proof. reflexivity. Qed.

Example dirname_of_source_dir :
  PosixPath.dirname "/work/swift-corelibs-xctest" = "/work".
Proof. reflexivity. Qed.

Module PathFacts.
Import PosixPath.

#[local] Arguments append : simpl nomatch.

Lemma append_nil_r (s : string) : s +:+ "" = s.
Proof. induction s as [|c s IH]; simpl; [done | by rewrite IH]. Qed.

Lemma append_assoc (a b c : string) : (a +:+ b) +:+ c = a +:+ (b +:+ c).
Proof. induction a as [|x a IH]; simpl; [done | by rewrite IH]. Qed.

Lemma is_empty_append (a b : string) :
  is_empty (a +:+ b) = is_empty a && is_empty b.
Proof. by destruct a. Qed.

Lemma endswith_sep_append (a : string) (c : ascii) (b : string) :
  endswith_sep (a +:+ String c b) = endswith_sep (String c b).
Proof.
  induction a as [|x a IH]; [done |].
  change (String x a +:+ String c b) with (String x (a +:+ String c b)).
  destruct a as [|y a]; [done |].
  exact IH.
Qed.

Lemma startswith_sep_lstrip (s : string) : startswith_sep (lstrip_sep s) = false.
Proof.
  induction s as [|c s IH]; [done |].
  simpl. destruct (is_sep c) eqn:E; [exact IH | simpl; exact E].
Qed.

Lemma lstrip_sep_decompose (s : string) :
  ∃ l, s = l +:+ lstrip_sep s ∧ all_sep l = true.
Proof.
  induction s as [|c s [l [Hs Hl]]]; [by exists "" |].
  simpl. destruct (is_sep c) eqn:E.
  - exists (String c l). simpl. rewrite E, Hl. split; [by rewrite <- Hs | done].
  - by exists "".
Qed.

Lemma rstrip_sep_decompose (s : string) :
  ∃ r, s = rstrip_sep s +:+ r ∧ all_sep r = true.
Proof.
  induction s as [|c s [r [Hs Hr]]]; [by exists "" |].
  simpl. destruct (is_sep c && is_empty (rstrip_sep s)) eqn:E.
  - apply andb_true_iff in E as [Ec Ee].
    destruct (rstrip_sep s); [| done]. simpl in Hs. subst s.
    exists (String c r). simpl. by rewrite Ec, Hr.
  - exists r. simpl. by rewrite <- Hs.
Qed.

Lemma endswith_sep_rstrip (s : string) : endswith_sep (rstrip_sep s) = false.
Proof.
  induction s as [|c s IH]; [done |].
  simpl. destruct (is_sep c && is_empty (rstrip_sep s)) eqn:E; [done |].
  destruct (rstrip_sep s) as [|y r'] eqn:R.
  - simpl in *. by rewrite andb_true_r in E.
  - exact IH.
Qed.

Lemma startswith_sep_rstrip (s : string) :
  startswith_sep s = false → startswith_sep (rstrip_sep s) = false.
Proof.
  destruct s as [|c s]; [done |].
  simpl. intros E. by rewrite E.
Qed.

Lemma join_step_relative (x b : string) :
  startswith_sep b = false →
  join_step x b
  = if is_empty x || endswith_sep x then x +:+ b else x +:+ "/" +:+ b.
Proof. unfold join_step. by intros ->. Qed.

(** Joining ["lib"] then ["swift"] is joining ["lib/swift"]. *)
Lemma join_step_lib_swift (x : string) :
  join_step (join_step x "lib") "swift" = join_step x "lib/swift".
Proof.
  rewrite !join_step_relative by reflexivity.
  destruct (is_empty x || endswith_sep x).
  - rewrite is_empty_append, andb_false_r.
    rewrite (endswith_sep_append x "l" "ib").
    change (endswith_sep "lib") with false. simpl orb. cbv iota.
    by rewrite append_assoc.
  - rewrite !is_empty_append, !andb_false_r.
    rewrite <- (append_assoc x "/" "lib").
    rewrite (endswith_sep_append (x +:+ "/") "l" "ib").
    change (endswith_sep "lib") with false. simpl orb. cbv iota.
    by rewrite !append_assoc.
Qed.

End PathFacts.

(** C2.  [core_foundation_build_dir] is a function of its two string
    arguments alone (it takes and returns no process state), and its value
    is [os.path.join] of the base directory, the install prefix stripped of
    its leading and trailing separators, and the fixed sub-path
    [lib/swift].  The stripped prefix is the given prefix without a run of
    separators at either end, and neither starts nor ends with one. *)
Theorem core_foundation_build_dir_is_join (baseDir installPrefix : string) :
  core_foundation_build_dir baseDir installPrefix
  = PosixPath.join baseDir [PosixPath.strip_sep installPrefix; "lib/swift"]
  ∧ PosixPath.startswith_sep (PosixPath.strip_sep installPrefix) = false
  ∧ PosixPath.endswith_sep (PosixPath.strip_sep installPrefix) = false
  ∧ ∃ l r, installPrefix = l +:+ PosixPath.strip_sep installPrefix +:+ r
           ∧ all_sep l = true ∧ all_sep r = true.
Proof.
  repeat split.
  - unfold core_foundation_build_dir, PosixPath.join. simpl.
    apply PathFacts.join_step_lib_swift.
  - apply PathFacts.startswith_sep_rstrip, PathFacts.startswith_sep_lstrip.
  - apply PathFacts.endswith_sep_rstrip.
  - destruct (PathFacts.lstrip_sep_decompose installPrefix) as [l [Hl Hal]].
    destruct (PathFacts.rstrip_sep_decompose (PosixPath.lstrip_sep installPrefix))
      as [r [Hr Har]].
    exists l, r. split; [| done].
    unfold PosixPath.strip_sep. by rewrite <- Hr.
Qed.

(** ** The argument parser *)

Module ArgparseFacts.
Import Argparse.

Lemma find_option_in spec o a : find_option spec o = Some a → In a spec.
Proof. intros H. by apply List.find_some in H as [H _]. Qed.

Lemma parse_optional_in spec t a e :
  parse_optional spec t = Some (a, e) → In a spec.
Proof.
  unfold parse_optional. intros H.
  destruct (find_option spec t) as [a'|] eqn:E.
  - inversion H; subst. by eapply find_option_in.
  - destruct (split_eq t) as [[o v]|]; [| done].
    destruct (find_option spec o) as [a'|] eqn:E'; [| done].
    inversion H; subst. by eapply find_option_in.
Qed.

(** Parsing writes only the destinations of the parser's arguments. *)
Lemma consume_preserves spec (k : string) :
  (∀ a, In a spec → dest a ≠ k) →
  ∀ tokens positionals seen extras (ns ns' : namespace),
    (∀ p, In p positionals → dest p ≠ k) →
    consume spec positionals seen extras ns tokens = Parsed ns' →
    ns' !! k = ns !! k.
Proof.
  intros Hspec tokens.
  remember (length tokens) as n eqn:Hn. revert tokens Hn.
  induction n as [n IH] using lt_wf_ind.
  intros tokens Hn positionals seen extras ns ns' Hpos H.
  destruct tokens as [|t rest]; simpl in H.
  - unfold finish in H. destruct positionals; [| done].
    destruct (existsb _ spec); [done |]. destruct extras; [done |].
    by inversion H.
  - simpl in Hn.
    assert (Hrest : ∀ positionals seen extras (ns0 : namespace),
              (∀ p, In p positionals → dest p ≠ k) →
              consume spec positionals seen extras ns0 rest = Parsed ns' →
              ns' !! k = ns0 !! k).
    { intros ps0 seen0 extras0 ns0 Hps0 H0.
      assert (Hlt : (length rest < n)%nat) by (subst n; lia).
      exact (IH (length rest) Hlt rest eq_refl ps0 seen0 extras0 ns0 ns' Hps0 H0). }
    destruct (starts_with_dash t).
    + destruct (parse_optional spec t) as [[a e]|] eqn:E.
      * apply parse_optional_in in E. apply Hspec in E.
        destruct (arg_action a), e; try done;
          try (rewrite (Hrest _ _ _ _ Hpos H); by rewrite lookup_insert_ne).
        destruct rest as [|v rest']; [done |].
        destruct (starts_with_dash v); [done |].
        assert (Hlt : (length rest' < n)%nat) by (subst n; simpl; lia).
        rewrite (IH (length rest') Hlt rest' eq_refl _ _ _ _ ns' Hpos H).
        by rewrite lookup_insert_ne.
      * eauto.
    + destruct positionals as [|p ps]; [eauto |].
      rewrite (Hrest _ _ _ _ (λ q Hq, Hpos q (or_intror Hq)) H).
      rewrite lookup_insert_ne; [done |]. apply Hpos. by left.
Qed.

Lemma defaults_preserves spec (k : string) (ns : namespace) :
  (∀ a, In a spec → dest a ≠ k) → defaults spec ns !! k = ns !! k.
Proof.
  revert ns. induction spec as [|a spec IH]; intros ns H; [done |].
  change (defaults (a :: spec) ns)
    with (defaults spec
            match arg_action a with
            | Help => ns
            | _ => <[dest a := default a]> ns
            end).
  rewrite IH by (intros; apply H; by right).
  destruct (arg_action a); try done;
    rewrite lookup_insert_ne; try done; apply H; by left.
Qed.

Lemma parse_sub_func sp tokens ns :
  (∀ a, In a (sub_spec sp) → dest a ≠ "func") →
  parse_sub sp tokens = Parsed ns →
  ns !! "func" = Some (PFunc (sub_func sp)).
Proof.
  intros Hspec H. unfold parse_sub in H.
  rewrite (consume_preserves _ "func" Hspec _ _ _ _ _ _
             (λ p Hp, Hspec p (proj1 (proj1 (filter_In _ _ _) Hp))) H).
  rewrite defaults_preserves by done.
  by rewrite lookup_singleton_eq.
Qed.

(** A subcommand name in first position selects its subparser. *)
Lemma parse_args_build s SOURCE_DIR tmp tokens :
  parse_args (subparsers s SOURCE_DIR tmp) false ("build" :: tokens)
  = parse_sub (build_parser s tmp) tokens.
Proof. simpl. by destruct (parse_sub (build_parser s tmp) tokens). Qed.

Lemma build_parser_dests s tmp a :
  In a (sub_spec (build_parser s tmp)) → dest a ≠ "func".
Proof. simpl. intros H. repeat (destruct H as [<- | H]; [done |]). done. Qed.

End ArgparseFacts.

Lemma effective_args_known (args : list string) :
  (∃ a, a ∈ args ∧ a ∈ known_tokens) → effective_args args = args.
Proof.
  intros [a [Ha Hk]]. unfold effective_args.
  replace (existsb _ args) with true; [done |].
  symmetry. apply existsb_exists. exists a. split.
  - by apply list_elem_of_In.
  - by apply bool_decide_eq_true.
Qed.

Lemma effective_args_default (args : list string) :
  (∀ a, a ∈ args → a ∉ known_tokens) → effective_args args = "build" :: args.
Proof.
  intros H. unfold effective_args.
  replace (existsb _ args) with false; [done |].
  symmetry. apply not_true_is_false. intros E.
  apply existsb_exists in E as [a [Ha Hk]].
  apply bool_decide_eq_true in Hk. apply list_elem_of_In in Ha.
  by apply (H a).
Qed.

(** C1.  When none of [build], [test], [install], [-h], [--help] occurs in
    the raw argument list, the dispatcher parses the list with [build] put
    in front, the parser hands the remaining tokens to the [build]
    subparser, and every successful parse is bound to the build operation.
    When one of these tokens occurs, the list is parsed unchanged. *)
Theorem default_subcommand_is_build
    (s : strategy) (SOURCE_DIR tmp : string) (args : list string) :
  ((∀ a, a ∈ args → a ∉ known_tokens) →
   effective_args args = "build" :: args
   ∧ (∀ tools glob platform_system tmpname depth,
        main tools glob SOURCE_DIR platform_system tmpname (S depth) args
        = parse_and_dispatch tools glob SOURCE_DIR platform_system tmpname
            (main tools glob SOURCE_DIR platform_system tmpname depth)
            ("build" :: args))
   ∧ Argparse.parse_args (subparsers s SOURCE_DIR tmp) false
       (effective_args args)
     = Argparse.parse_sub (build_parser s tmp) args
   ∧ ∀ ns, Argparse.parse_args (subparsers s SOURCE_DIR tmp) false
             (effective_args args) = Parsed ns →
           ns !! "func" = Some (PFunc OpBuild))
  ∧ ((∃ a, a ∈ args ∧ a ∈ known_tokens) → effective_args args = args).
Proof.
  split; [| apply effective_args_known].
  intros H. rewrite (effective_args_default args H).
  rewrite ArgparseFacts.parse_args_build.
  split; [done |]. split.
  { intros tools glob platform_system tmpname depth.
    change (main tools glob SOURCE_DIR platform_system tmpname (S depth) args)
      with (parse_and_dispatch tools glob SOURCE_DIR platform_system tmpname
              (main tools glob SOURCE_DIR platform_system tmpname depth)
              (effective_args args)).
    by rewrite (effective_args_default args H). }
  split; [done |]. intros ns Hns.
  apply (ArgparseFacts.parse_sub_func (build_parser s tmp) args ns);
    [apply ArgparseFacts.build_parser_dests | done].
Qed.

Lemma default_subcommand_is_build_witness :
  effective_args ["--swiftc"; "/usr/bin/swiftc"; "--test"]
  = ["build"; "--swiftc"; "/usr/bin/swiftc"; "--test"].
Proof.
  apply (default_subcommand_is_build GenericUnixStrategy "/src" "/tmp/tmpA"
           ["--swiftc"; "/usr/bin/swiftc"; "--test"]).
  apply Forall_forall.
  refine (bool_decide_unpack _ _); vm_compute; exact I.
Defined.

(** ** The dispatcher *)

Section Dispatcher.

Variable tools : string -> filesystem -> string -> Z * filesystem.
Variable glob : filesystem -> string -> string -> list string.
Variable SOURCE_DIR : string.
Variable platform_system : string.
Variable tmpname : nat -> string.

Let main := main tools glob SOURCE_DIR platform_system tmpname.
Let parse_and_dispatch :=
  parse_and_dispatch tools glob SOURCE_DIR platform_system tmpname.

Lemma main_unfold (depth : nat) (args : list string) :
  main (S depth) args = parse_and_dispatch (main depth) (effective_args args).
Proof. reflexivity. Qed.

(** C10.  A token equal to [build], [test], [install], [-h] or [--help]
    anywhere in the raw argument list, whatever its role there (the value
    of a flag, a positional path), suppresses the default: the dispatcher
    puts no [build] in front and parses the list as given. *)
Theorem fallback_suppressed_by_any_known_token
    (args : list string) (tok : string) :
  tok ∈ known_tokens →
  tok ∈ args →
  effective_args args = args
  ∧ ∀ depth, main (S depth) args = parse_and_dispatch (main depth) args.
Proof.
  intros Hk Ha.
  assert (E : effective_args args = args)
    by (apply effective_args_known; eauto).
  split; [done |]. intros depth. by rewrite main_unfold, E.
Qed.

End Dispatcher.

Lemma fallback_suppressed_by_any_known_token_witness :
  effective_args ["--swiftc"; "swiftc"; "--build-dir"; "build"]
  = ["--swiftc"; "swiftc"; "--build-dir"; "build"].
Proof.
  refine (proj1 (fallback_suppressed_by_any_known_token
                   quiet_tools two_sources "/src" "Linux" tmp_names
                   ["--swiftc"; "swiftc"; "--build-dir"; "build"] "build"
                   _ _)).
  - refine (bool_decide_unpack _ _); vm_compute; exact I.
  - refine (bool_decide_unpack _ _); vm_compute; exact I.
Defined.

(** ** DarwinStrategy *)

(** C4.  Under the Darwin strategy [install] fails whatever its
    configuration and whatever the state of the process: it prints the
    note that the install command is not supported on this platform and
    exits with status 1; the file system is untouched and no command is
    handed to the shell.  The dispatcher binds the install subcommand to
    exactly this operation. *)
Theorem darwin_install_always_fails (args : namespace) (w : world) :
  ∃ w',
    DarwinStrategy_install args w = (Raise (SystemExit 1), w')
    ∧ stdout w'
      = stdout w
        ++ ["xctest-build: error: The install command is not supported on this platform"]
    ∧ fs w' = fs w
    ∧ executed w' = executed w
    ∧ cwd w' = cwd w
    ∧ (1 ≠ 0)%Z
    ∧ ∀ tools glob SOURCE_DIR main,
        operation_of tools glob SOURCE_DIR DarwinStrategy OpInstall main
        = DarwinStrategy_install.
Proof.
  eexists. repeat split. done.
Qed.

(** ** Required arguments *)

Module RequiredFacts.
Import Argparse.

Lemma prefix_append (a b : string) : starts_with a (a +:+ b) = true.
Proof.
  induction a as [|c a IH]; [reflexivity |].
  change (String c a +:+ b) with (String c (a +:+ b)).
  simpl. by rewrite bool_decide_eq_true_2.
Qed.

Lemma prefix_refl (a : string) : starts_with a a = true.
Proof.
  induction a as [|c a IH]; [reflexivity |].
  simpl. by rewrite bool_decide_eq_true_2.
Qed.

Lemma split_eq_append (t o v : string) :
  split_eq t = Some (o, v) → t = o +:+ String "=" v.
Proof.
  revert o. induction t as [|c t IH]; intros o H; [done |].
  simpl in H. case_bool_decide.
  - inversion H; subst. done.
  - destruct (split_eq t) as [[o' v']|]; [| done].
    inversion H; subst.
    change (String c o' +:+ String "=" v) with (String c (o' +:+ String "=" v)).
    by rewrite <- (IH o' eq_refl).
Qed.

(** A token selects an option only by naming it, alone or before [=]. *)
Lemma parse_optional_prefix spec t a e :
  parse_optional spec t = Some (a, e) →
  ∃ o, find_option spec o = Some a ∧ starts_with o t = true.
Proof.
  unfold parse_optional. intros H.
  destruct (find_option spec t) as [a'|] eqn:E.
  - inversion H; subst. exists t. split; [done | apply prefix_refl].
  - destruct (split_eq t) as [[o v]|] eqn:S; [| done].
    destruct (find_option spec o) as [a'|] eqn:E'; [| done].
    inversion H; subst. exists o. split; [done |].
    rewrite (split_eq_append _ _ _ S). apply prefix_append.
Qed.

(** A required argument that no token supplies makes the parse end in an
    exit: with status 2, or with status 0 when a help option came first. *)
Lemma consume_missing_required spec r :
  In r spec → required r = true →
  ∀ tokens positionals seen extras (ns : namespace),
    dest r ∉ seen →
    (∀ p, In p positionals → dest p ≠ dest r) →
    (∀ t a e, t ∈ tokens → parse_optional spec t = Some (a, e) →
              dest a ≠ dest r) →
    consume spec positionals seen extras ns tokens = ParseExit 2
    ∨ (consume spec positionals seen extras ns tokens = ParseExit 0
       ∧ ∃ t a, t ∈ tokens ∧ parse_optional spec t = Some (a, None)
                ∧ arg_action a = Help).
Proof.
  intros Hr Hreq tokens.
  remember (length tokens) as n eqn:Hn. revert tokens Hn.
  induction n as [n IH] using lt_wf_ind.
  intros tokens Hn positionals seen extras ns Hseen Hpos Htok.
  destruct tokens as [|t rest]; simpl.
  - left. unfold finish. destruct positionals; [| done].
    replace (existsb _ spec) with true; [done |].
    symmetry. apply existsb_exists. exists r. split; [done |].
    rewrite Hreq. simpl. by rewrite bool_decide_eq_false_2.
  - simpl in Hn.
    assert (Hrest : ∀ positionals seen extras (ns0 : namespace),
              dest r ∉ seen →
              (∀ p, In p positionals → dest p ≠ dest r) →
              consume spec positionals seen extras ns0 rest = ParseExit 2
              ∨ (consume spec positionals seen extras ns0 rest = ParseExit 0
                 ∧ ∃ t0 a, t0 ∈ t :: rest
                           ∧ parse_optional spec t0 = Some (a, None)
                           ∧ arg_action a = Help)).
    { intros ps0 seen0 extras0 ns0 Hs0 Hp0.
      assert (Hlt : (length rest < n)%nat) by (subst n; lia).
      destruct (IH (length rest) Hlt rest eq_refl ps0 seen0 extras0 ns0 Hs0 Hp0)
        as [E | [E [t0 [a [Ht0 Ha]]]]].
      - intros t0 a e Ht0. apply Htok. by right.
      - by left.
      - right. split; [done |]. exists t0, a. split; [by right | done]. }
    destruct (starts_with_dash t).
    + destruct (parse_optional spec t) as [[a e]|] eqn:E; [| by apply Hrest].
      assert (Ha : dest a ≠ dest r) by (eapply Htok; [by left | done]).
      assert (Hseen' : dest r ∉ dest a :: seen).
      { intros [E0 | H]%elem_of_cons; [congruence | by apply Hseen]. }
      destruct (arg_action a) eqn:Act, e; try (by left); try (by apply Hrest).
      * destruct rest as [|v rest']; [by left |].
        destruct (starts_with_dash v); [by left |].
        assert (Hlt : (length rest' < n)%nat) by (subst n; simpl; lia).
        destruct (IH (length rest') Hlt rest' eq_refl positionals
                    (dest a :: seen) extras (<[dest a:=PStr v]> ns)
                    Hseen' Hpos)
          as [E' | [E' [t0 [a0 [Ht0 Ha0]]]]].
        -- intros t0 a0 e0 Ht0. apply Htok. right. by right.
        -- by left.
        -- right. split; [done |]. exists t0, a0.
           split; [right; by right | done].
      * right. split; [done |]. exists t, a. split; [by left | done].
    + destruct positionals as [|p ps]; [by apply Hrest |].
      apply Hrest.
      * intros [E0 | H]%elem_of_cons; [| by apply Hseen].
        apply (Hpos p); [by left | congruence].
      * intros q Hq. apply Hpos. by right.
Qed.

End RequiredFacts.

Module ParserTables.
Import Argparse.

Ltac analyse_find H :=
  unfold find_option in H; simpl in H;
  repeat (case_bool_decide; [simplify_eq; try done |]);
  try done.

(** In the build and test subparsers the destination
    [foundation_build_dir] belongs to [--foundation-build-dir] alone, and
    the help action to [-h] and [--help] alone. *)
Lemma build_flag_only s tmp o a :
  find_option (sub_spec (build_parser s tmp)) o = Some a →
  (dest a = "foundation_build_dir" → o = "--foundation-build-dir")
  ∧ (arg_action a = Help → o ∈ ["-h"; "--help"]).
Proof.
  intros H. analyse_find H.
  split; [| done]. intros _.
  match goal with E : o ∈ [_] |- _ => by apply list_elem_of_singleton in E end.
Qed.

Lemma test_flag_only s SOURCE_DIR o a :
  find_option (sub_spec (test_parser s SOURCE_DIR)) o = Some a →
  (dest a = "foundation_build_dir" → o = "--foundation-build-dir")
  ∧ (arg_action a = Help → o ∈ ["-h"; "--help"]).
Proof.
  intros H. analyse_find H.
  split; [| done]. intros _.
  match goal with E : o ∈ [_] |- _ => by apply list_elem_of_singleton in E end.
Qed.

End ParserTables.

(** Tokens that do not begin like an option. *)
Module PrefixFacts.

Lemma starts_with_app (p q t : string) :
  starts_with p t = false → starts_with (p +:+ q) t = false.
Proof.
  revert t. induction p as [|a p IH]; intros t H; [done |].
  destruct t as [|b t]; [done |].
  change (String a p +:+ q) with (String a (p +:+ q)).
  simpl in *. apply andb_false_iff in H as [H | H].
  - by rewrite H.
  - rewrite (IH t H). apply andb_false_r.
Qed.

Lemma starts_with_self (p : string) : starts_with p p = true.
Proof.
  induction p as [|a p IH]; [done |].
  simpl. rewrite IH. by rewrite bool_decide_eq_true_2.
Qed.

Lemma not_prefixed_ne (p q t : string) :
  starts_with p t = false → t ≠ p +:+ q.
Proof.
  intros H ->. apply (starts_with_app p q) in H.
  revert H. generalize (p +:+ q). intros s H.
  by rewrite starts_with_self in H.
Qed.

End PrefixFacts.

Section RequiredFlag.

Import Argparse.

Variable SOURCE_DIR : string.
Variable tmp : string.

Let flag_argument (s : strategy) : argument :=
  Argument ["--foundation-build-dir"] "foundation_build_dir"
    (requires_foundation_build_dir s) PNone Store.

Lemma omitted_flag_is_usage_error sp tokens :
  In (flag_argument GenericUnixStrategy) (sub_spec sp) →
  (∀ o a, find_option (sub_spec sp) o = Some a →
          (dest a = "foundation_build_dir" → o = "--foundation-build-dir")
          ∧ (arg_action a = Help → o ∈ ["-h"; "--help"])) →
  (∀ p, In p (List.filter is_positional (sub_spec sp)) →
        dest p ≠ "foundation_build_dir") →
  (∀ t, t ∈ tokens → starts_with "--foundation-build-dir" t = false) →
  parse_sub sp tokens = ParseExit 2
  ∨ (parse_sub sp tokens = ParseExit 0
     ∧ ("-h" ∈ tokens ∨ "--help" ∈ tokens)).
Proof.
  intros Hin Hfind Hpos Htok. unfold parse_sub.
  destruct (RequiredFacts.consume_missing_required (sub_spec sp)
              (flag_argument GenericUnixStrategy) Hin eq_refl tokens
              (List.filter is_positional (sub_spec sp)) [] false
              (defaults (sub_spec sp) {[ "func" := PFunc (sub_func sp) ]}))
    as [E | [E [t [a [Ht [Ha Hact]]]]]].
  - by intros ?%elem_of_nil.
  - exact Hpos.
  - intros t a e Ht Hp Hd.
    apply RequiredFacts.parse_optional_prefix in Hp as [o [Ho Hpre]].
    apply Hfind in Ho as [Ho _]. rewrite (Ho Hd) in Hpre.
    rewrite (Htok t Ht) in Hpre. done.
  - by left.
  - right. split; [done |].
    unfold parse_optional in Ha.
    destruct (find_option (sub_spec sp) t) as [a'|] eqn:F.
    + inversion Ha; subst. apply Hfind in F as [_ F].
      specialize (F Hact).
      apply elem_of_cons in F as [-> | F]; [by left |].
      apply list_elem_of_singleton in F as ->. by right.
    + destruct (split_eq t) as [[o v]|]; [| done].
      by destruct (find_option (sub_spec sp) o).
Qed.

(** C3.  [requires_foundation_build_dir] is a constant of the strategy:
    true for the generic-Unix strategy, false for Darwin.  The build and
    test subparsers declare [--foundation-build-dir] with [required] set to
    that value.  So under generic Unix a command line for either subcommand
    that omits the flag never parses: the parser exits with status 2 (or
    with status 0 if help was asked for); under Darwin the same
    subcommands parse without it and leave the value [None].  The flag is
    omitted when no token begins with [--f]: argparse also takes a unique
    abbreviation, down to [--f], for the flag.  For the same reason the
    help options are taken in their full spelling only: a token that
    begins with [--h] is [--help], one that begins with [-h] is [-h]. *)
Theorem foundation_build_dir_required_by_strategy :
  requires_foundation_build_dir GenericUnixStrategy = true
  ∧ requires_foundation_build_dir DarwinStrategy = false
  ∧ (∀ s, In (flag_argument s) (sub_arguments (build_parser s tmp))
          ∧ In (flag_argument s) (sub_arguments (test_parser s SOURCE_DIR)))
  ∧ (∀ sp tokens,
       sp = build_parser GenericUnixStrategy tmp
       ∨ sp = test_parser GenericUnixStrategy SOURCE_DIR →
       (∀ t, t ∈ tokens →
             starts_with "--f" t = false
             ∧ (starts_with "--h" t = true → t = "--help")
             ∧ (starts_with "-h" t = true → t = "-h")) →
       parse_sub sp tokens = ParseExit 2
       ∨ (parse_sub sp tokens = ParseExit 0
          ∧ ("-h" ∈ tokens ∨ "--help" ∈ tokens)))
  ∧ (∀ swiftc build_dir,
       starts_with_dash swiftc = false →
       starts_with_dash build_dir = false →
       (∃ ns, parse_sub (build_parser DarwinStrategy tmp) ["--swiftc"; swiftc]
              = Parsed ns
              ∧ ns !! "foundation_build_dir" = Some PNone)
       ∧ (∃ ns, parse_sub (test_parser DarwinStrategy SOURCE_DIR)
                  ["--swiftc"; swiftc; build_dir] = Parsed ns
                ∧ ns !! "foundation_build_dir" = Some PNone)).
Proof.
  split; [done |]. split; [done |]. split.
  { intros s. split; simpl; tauto. }
  split.
  - intros sp tokens Hsp Habbrev.
    assert (Htok : ∀ t, t ∈ tokens →
                        starts_with "--foundation-build-dir" t = false).
    { intros t Ht. apply Habbrev in Ht as [Ht _].
      exact (PrefixFacts.starts_with_app "--f" "oundation-build-dir" t Ht). }
    destruct Hsp as [-> | ->].
    + apply omitted_flag_is_usage_error; [simpl; tauto | | | done].
      * intros o a. apply ParserTables.build_flag_only.
      * simpl. tauto.
    + apply omitted_flag_is_usage_error; [simpl; tauto | | | done].
      * intros o a. apply ParserTables.test_flag_only.
      * simpl. intros p [<- | []]. done.
  - intros swiftc build_dir Hs Hb. split.
    + unfold parse_sub.
      remember (defaults _ _) as ns0 eqn:Hns0.
      simpl. rewrite Hs. simpl.
      eexists. split; [reflexivity |].
      rewrite lookup_insert_ne by done. by subst ns0.
    + unfold parse_sub.
      remember (defaults _ _) as ns0 eqn:Hns0.
      simpl. rewrite Hs. simpl. rewrite Hb. simpl.
      eexists. split; [reflexivity |].
      rewrite !lookup_insert_ne by done. by subst ns0.
Qed.

End RequiredFlag.

Lemma foundation_build_dir_required_by_strategy_witness :
  Argparse.parse_sub (build_parser GenericUnixStrategy "/tmp/tmpA")
    ["--swiftc"; "/usr/bin/swiftc"; "--release"] = ParseExit 2
  ∨ (Argparse.parse_sub (build_parser GenericUnixStrategy "/tmp/tmpA")
       ["--swiftc"; "/usr/bin/swiftc"; "--release"] = ParseExit 0
     ∧ ("-h" ∈ ["--swiftc"; "/usr/bin/swiftc"; "--release"]
        ∨ "--help" ∈ ["--swiftc"; "/usr/bin/swiftc"; "--release"])).
Proof.
  destruct (foundation_build_dir_required_by_strategy "/src" "/tmp/tmpA")
    as (_ & _ & _ & H & _).
  apply H; [by left |].
  apply Forall_forall.
  repeat (apply Forall_cons; split; [by vm_compute |]).
  apply Forall_nil_2.
Defined.

(** ** The effect monad *)

Module MonadFacts.

Lemma bind_Return {A B} (m : M A) (k : A -> M B) w a w' :
  m w = (Return a, w') → bind m k w = k a w'.
Proof. unfold bind. by intros ->. Qed.

Lemma bind_Raise {A B} (m : M A) (k : A -> M B) w e w' :
  m w = (Raise e, w') → bind m k w = (Raise e, w').
Proof. unfold bind. by intros ->. Qed.

Lemma attr_lookup (ns : namespace) (k : string) (v : pyval) w :
  ns !! k = Some v → attr ns k w = (Return v, w).
Proof. unfold attr. by intros ->. Qed.

Lemma no_IOError_ret {A} (a : A) : no_IOError (ret a).
Proof. by intros w msg. Qed.

Lemma no_IOError_raise {A} (e : exn) :
  (∀ msg, e ≠ IOError msg) → no_IOError (@raise A e).
Proof. intros H w msg. simpl. intros [= E]. by apply (H msg). Qed.

Lemma no_IOError_bind {A B} (m : M A) (k : A -> M B) :
  no_IOError m → (∀ a, no_IOError (k a)) → no_IOError (bind m k).
Proof.
  intros Hm Hk w msg. unfold bind.
  specialize (Hm w msg). destruct (m w) as [[a|e] w'].
  - apply Hk.
  - simpl in *. intros [= E]. apply Hm. by rewrite E.
Qed.

Lemma no_IOError_try {A} (m : M A) (h : errno -> M A) :
  no_IOError m → (∀ e, no_IOError (h e)) → no_IOError (try_OSError m h).
Proof.
  intros Hm Hh w msg. unfold try_OSError.
  specialize (Hm w msg). destruct (m w) as [[a|[]] w']; try done.
  apply Hh.
Qed.

Lemma no_IOError_if {A} (b : bool) (m1 m2 : M A) :
  no_IOError m1 → no_IOError m2 → no_IOError (if b then m1 else m2).
Proof. by destruct b. Qed.

Lemma no_IOError_os_call f : no_IOError (os_call f).
Proof. intros w msg. unfold os_call. by destruct (f (fs w) (cwd w)). Qed.

Lemma no_IOError_attr (ns : namespace) (k : string) : no_IOError (attr ns k).
Proof. intros w msg. unfold attr. by destruct (ns !! k). Qed.

Lemma no_IOError_abspath_of v : no_IOError (abspath_of v).
Proof. intros w msg. by destruct v. Qed.

Lemma no_IOError_str_of v : no_IOError (str_of v).
Proof. intros w msg. by destruct v. Qed.

Lemma no_IOError_symlink_force target link :
  no_IOError (symlink_force target link).
Proof.
  unfold symlink_force, resolved_link_name.
  apply no_IOError_bind.
  - apply no_IOError_bind; [by intros w msg |]. intros; apply no_IOError_ret.
  - intros l. apply no_IOError_try; [apply no_IOError_os_call |].
    intros e. apply no_IOError_if.
    + apply no_IOError_bind; intros; apply no_IOError_os_call.
    + by apply no_IOError_raise.
Qed.

Lemma no_IOError_run tools cmd : no_IOError (run tools cmd).
Proof.
  unfold run. apply no_IOError_bind; [by intros w msg |].
  intros _ w msg. unfold check_call.
  destruct (Shell.exec tools cmd (fs w) (cwd w)) as [st f].
  by case_bool_decide.
Qed.

End MonadFacts.

(** ** GenericUnixStrategy.test *)

Section GenericTest.

Import MonadFacts.

Variable tools : string -> filesystem -> string -> Z * filesystem.
Variable SOURCE_DIR : string.

Let test := GenericUnixStrategy_test tools SOURCE_DIR.

(** [test] after the check of the lit tool has passed. *)
Lemma test_after_check_no_IOError (args : namespace) (lit_path : string) :
  no_IOError
    (v <- attr args "foundation_build_dir" ;;
     foundation_build_dir <- abspath_of v ;;
     v <- attr args "foundation_install_prefix" ;;
     prefix <- str_of v ;;
     let core_foundation_dir :=
       core_foundation_build_dir foundation_build_dir prefix in
     lbd <- attr args "libdispatch_build_dir" ;;
     (if truthy lbd then
        _ <- abspath_of lbd ;;
        d <- str_of lbd ;;
        symlink_force (libdispatch_so d) foundation_build_dir
      else ret tt) ;;
     lsd <- attr args "libdispatch_src_dir" ;;
     libdispatch_src_args <-
       (if truthy lsd && truthy lbd then
          src <- abspath_of lsd ;;
          d <- str_of lbd ;;
          ret ("LIBDISPATCH_SRC_DIR=" +:+ src +:+ " LIBDISPATCH_BUILD_DIR="
               +:+ PosixPath.join d ["src"; ".libs"])
        else ret "") ;;
     v <- attr args "swiftc" ;;
     swiftc <- abspath_of v ;;
     bd <- attr args "build_dir" ;;
     run tools
       (lit_command SOURCE_DIR swiftc (format_value bd) foundation_build_dir
          core_foundation_dir libdispatch_src_args lit_path)).
Proof.
  repeat first
    [ apply no_IOError_symlink_force
    | apply no_IOError_run
    | apply no_IOError_attr
    | apply no_IOError_abspath_of
    | apply no_IOError_str_of
    | apply no_IOError_ret
    | apply no_IOError_if
    | apply no_IOError_bind; [| intros ?] ].
Qed.

(** C8.  [test] first resolves the lit path and asks whether it exists.
    If it does not, [test] raises an [IOError] whose message quotes that
    path and goes on to say how to obtain the tool; the process state is
    exactly what it was, so nothing was printed, run or changed.  If it
    exists, [test] raises no [IOError]. *)
Theorem missing_lit_raises_before_any_effect
    (args : namespace) (lit : string) (w : world) :
  args !! "lit" = Some (PStr lit) →
  let lit_path := PosixPath.abspath (cwd w) lit in
  (Fs.exists_ (fs w) (cwd w) lit_path = false →
   test args w = (Raise (IOError (lit_missing_message lit_path)), w)
   ∧ ∃ remediation,
       lit_missing_message lit_path
       = "Could not find lit tester tool at path: " +:+ dquote +:+ lit_path
         +:+ dquote +:+ remediation)
  ∧ (Fs.exists_ (fs w) (cwd w) lit_path = true →
     ∀ msg, fst (test args w) ≠ Raise (IOError msg)).
Proof.
  intros Hlit lit_path.
  assert (Hstart : ∀ k : string -> bool -> M unit,
            (v <- attr args "lit" ;;
             lit_path <- abspath_of v ;;
             e <- os_path_exists lit_path ;; k lit_path e) w
            = k lit_path (Fs.exists_ (fs w) (cwd w) lit_path) w).
  { intros k.
    rewrite (bind_Return _ _ w (PStr lit) w) by by apply attr_lookup.
    rewrite (bind_Return _ _ w lit_path w) by done.
    by rewrite (bind_Return _ _ w (Fs.exists_ (fs w) (cwd w) lit_path) w). }
  split.
  - intros Hmissing. split; [| by eexists].
    subst test. unfold GenericUnixStrategy_test.
    etransitivity; [apply (Hstart (λ lit_path e, if negb e then _ else _)) |].
    by rewrite Hmissing.
  - intros Hexists msg.
    subst test. unfold GenericUnixStrategy_test.
    rewrite (Hstart (λ lit_path e, if negb e then _ else _)).
    rewrite Hexists. simpl negb. cbv iota.
    apply test_after_check_no_IOError.
Qed.

End GenericTest.

Lemma missing_lit_raises_before_any_effect_witness :
  GenericUnixStrategy_test quiet_tools "/src" {[ "lit" := PStr "lit.py" ]}
    empty_world
  = (Raise (IOError (lit_missing_message "/lit.py")), empty_world).
Proof.
  refine (proj1
            (proj1
               (missing_lit_raises_before_any_effect quiet_tools "/src"
                  {[ "lit" := PStr "lit.py" ]} "lit.py" empty_world _) _)).
  - vm_compute. reflexivity.
  - vm_compute. reflexivity.
Defined.

(** ** The file system *)

Module FsFacts.
Import Fs.

Lemma walk_nil (l : nat) (follow : bool) (fs : filesystem) (cur : list string) :
  walk (S l) follow fs cur [] = inr (Found cur Dir).
Proof. reflexivity. Qed.

Lemma walk_cons (l : nat) (follow : bool) (fs : filesystem)
    (cur : list string) (c : string) (rest : list string) :
  walk (S l) follow fs cur (c :: rest)
  = if bool_decide (c = ".") then walk (S l) follow fs cur rest
    else if bool_decide (c = "..")
    then walk (S l) follow fs (removelast cur) rest
    else
      match fs !! (cur ++ [c]) with
      | None =>
          match rest with
          | [] => inr (Missing (cur ++ [c]))
          | _ => inl ENOENT
          end
      | Some Dir => walk (S l) follow fs (cur ++ [c]) rest
      | Some File =>
          match rest with
          | [] => inr (Found (cur ++ [c]) File)
          | _ => inl ENOTDIR
          end
      | Some (Symlink t) =>
          match rest, follow with
          | [], false => inr (Found (cur ++ [c]) (Symlink t))
          | _, _ =>
              walk l follow fs (if PosixPath.isabs t then [] else cur)
                (comps_of t ++ rest)
          end
      end.
Proof. reflexivity. Qed.

(** A free name is free. *)
Lemma walk_missing_lookup (l : nat) (follow : bool) (fs : filesystem)
    (cur comps key : list string) :
  walk l follow fs cur comps = inr (Missing key) → fs !! key = None.
Proof.
  revert cur comps. induction l as [|l IHl]; intros cur comps; [done |].
  revert cur. induction comps as [|c rest IHc]; intros cur; [done |].
  rewrite walk_cons.
  case_bool_decide; [apply IHc |].
  case_bool_decide; [apply IHc |].
  destruct (fs !! (cur ++ [c])) as [[| |t]|] eqn:E.
  - apply IHc.
  - by destruct rest.
  - destruct rest, follow; try done; apply IHl.
  - destruct rest; [| done]. by intros [= <-].
Qed.

(** Creating a link at the free name a lookup ended on makes the same
    lookup end on that link. *)
Lemma walk_insert_missing (l : nat) (fs : filesystem)
    (cur comps key : list string) (t : string) :
  walk l false fs cur comps = inr (Missing key) →
  walk l false (<[key := Symlink t]> fs) cur comps
  = inr (Found key (Symlink t)).
Proof.
  intros H. pose proof (walk_missing_lookup _ _ _ _ _ _ H) as Hnone.
  revert cur comps H. induction l as [|l IHl]; intros cur comps; [done |].
  revert cur. induction comps as [|c rest IHc]; intros cur; [done |].
  rewrite !walk_cons.
  case_bool_decide; [apply IHc |].
  case_bool_decide; [apply IHc |].
  destruct (decide (cur ++ [c] = key)) as [-> | Hne].
  - rewrite Hnone, lookup_insert_eq. by destruct rest.
  - rewrite lookup_insert_ne by done.
    destruct (fs !! (cur ++ [c])) as [[| |t']|] eqn:E.
    + apply IHc.
    + by destruct rest.
    + destruct rest; [done |]. apply IHl.
    + destruct rest; [| done]. intros [= ?]. done.
Qed.

(** Removing the entry a lookup ended on makes the same lookup end on the
    free name, unless the lookup passed through the entry on its way. *)
Lemma walk_delete_found (l : nat) (fs : filesystem)
    (cur comps key : list string) (n : node) :
  n ≠ Dir →
  walk l false fs cur comps = inr (Found key n) →
  walk l false (delete key fs) cur comps = inr (Missing key)
  ∨ walk l false (delete key fs) cur comps = inl ENOENT.
Proof.
  intros Hn.
  revert cur comps. induction l as [|l IHl]; intros cur comps; [done |].
  revert cur. induction comps as [|c rest IHc]; intros cur.
  { rewrite walk_nil. intros [= _ <-]. done. }
  rewrite !walk_cons.
  case_bool_decide; [apply IHc |].
  case_bool_decide; [apply IHc |].
  destruct (decide (cur ++ [c] = key)) as [-> | Hne].
  - rewrite lookup_delete_eq. intros _. destruct rest; [by left | by right].
  - rewrite lookup_delete_ne by done.
    destruct (fs !! (cur ++ [c])) as [[| |t']|] eqn:E.
    + apply IHc.
    + destruct rest; [| done]. intros [= ? ?]. done.
    + destruct rest; [intros [= ? ?]; done |]. apply IHl.
    + by destruct rest.
Qed.

End FsFacts.

(** ** symlink_force *)

Module SymlinkFacts.
Import Fs FsFacts.

(** Lookups report only [ENOENT], [ENOTDIR] and [ELOOP]. *)
Lemma walk_error (l : nat) (follow : bool) (fs : filesystem)
    (cur comps : list string) (e : errno) :
  walk l follow fs cur comps = inl e → e ≠ EEXIST ∧ e ≠ EISDIR.
Proof.
  revert cur comps. induction l as [|l IHl]; intros cur comps.
  { by intros [= <-]. }
  revert cur. induction comps as [|c rest IHc]; intros cur; [done |].
  rewrite walk_cons.
  case_bool_decide; [apply IHc |].
  case_bool_decide; [apply IHc |].
  destruct (fs !! (cur ++ [c])) as [[| |t]|] eqn:E.
  - apply IHc.
  - destruct rest; [done |]. by intros [= <-].
  - destruct rest, follow; try done; apply IHl.
  - destruct rest; [done |]. by intros [= <-].
Qed.

Lemma locate_error (follow : bool) (fs : filesystem) (cwd p : string) (e : errno) :
  locate follow fs cwd p = inl e → e ≠ EEXIST ∧ e ≠ EISDIR.
Proof.
  unfold locate. destruct (PosixPath.is_empty p).
  - by intros [= <-].
  - apply walk_error.
Qed.

Lemma locate_insert_missing (fs : filesystem) (cwd p : string)
    (key : list string) (t : string) :
  locate false fs cwd p = inr (Missing key) →
  locate false (<[key := Symlink t]> fs) cwd p = inr (Found key (Symlink t))
  ∧ fs !! key = None.
Proof.
  unfold locate. destruct (PosixPath.is_empty p); [done |].
  intros H. split.
  - by apply walk_insert_missing.
  - by eapply walk_missing_lookup.
Qed.

(** A successful [symlink] put the link at a name that was free. *)
Lemma symlink_inr (target p : string) (fs fs' : filesystem) (cwd : string) :
  symlink target p fs cwd = inr fs' →
  ∃ key, locate false fs cwd p = inr (Missing key)
         ∧ fs' = <[key := Symlink target]> fs
         ∧ fs !! key = None
         ∧ locate false fs' cwd p = inr (Found key (Symlink target))
         ∧ PosixPath.is_empty target = false.
Proof.
  unfold symlink. destruct (PosixPath.is_empty target); [done |].
  destruct (locate false fs cwd p) as [e|[k n|k]] eqn:L; try done.
  intros [= <-]. exists k.
  destruct (locate_insert_missing fs cwd p k target L) as [H1 H2].
  done.
Qed.

(** After a successful [unlink] of a path, [symlink] at that path does not
    report [EEXIST]. *)
Lemma symlink_after_unlink (target p : string) (fs fsd : filesystem)
    (cwd : string) :
  unlink p fs cwd = inr fsd → symlink target p fsd cwd ≠ inl EEXIST.
Proof.
  unfold unlink, symlink, locate.
  destruct (PosixPath.is_empty p) eqn:Ep; [done |].
  set (comps := if PosixPath.isabs p then _ else _).
  destruct (walk (S max_links) false fs [] comps) as [e|[k n|k]] eqn:L;
    try done.
  intros H.
  assert (Hn : n ≠ Dir) by (by destruct n).
  assert (fsd = delete k fs) as -> by (destruct n; by inversion H).
  destruct (PosixPath.is_empty target); [done |].
  destruct (walk_delete_found _ _ _ _ _ _ Hn L) as [-> | ->]; done.
Qed.

Lemma unlink_error (p : string) (fs : filesystem) (cwd : string) (e : errno) :
  unlink p fs cwd = inl e → e ≠ EEXIST.
Proof.
  unfold unlink.
  destruct (locate false fs cwd p) as [e'|[k n|k]] eqn:L.
  - intros [= <-]. by apply locate_error in L as [? ?].
  - destruct n; try done; by intros [= <-].
  - by intros [= <-].
Qed.

(** [symlink_force] spelled out on the file system. *)
Lemma symlink_force_eq (target link_name : string) (w : world) :
  symlink_force target link_name w
  = let r := if isdir (fs w) (cwd w) link_name
             then PosixPath.join link_name [PosixPath.basename target]
             else link_name in
    match symlink target r (fs w) (cwd w) with
    | inr fs1 => (Return tt, set_fs fs1 w)
    | inl EEXIST =>
        match unlink r (fs w) (cwd w) with
        | inl e => (Raise (OSError e), w)
        | inr fsd =>
            match symlink target r fsd (cwd w) with
            | inl e => (Raise (OSError e), set_fs fsd w)
            | inr fs2 => (Return tt, set_fs fs2 w)
            end
        end
    | inl e => (Raise (OSError e), w)
    end.
Proof.
  unfold symlink_force, resolved_link_name, bind, os_path_isdir, ret,
    try_OSError, os_symlink, os_remove, os_call, raise.
  cbv zeta.
  set (r := if isdir (fs w) (cwd w) link_name then _ else _).
  destruct (symlink target r (fs w) (cwd w)) as [[]|fs1] eqn:S1; simpl; try done.
  destruct (unlink r (fs w) (cwd w)) as [e|fsd]; [done |]. simpl.
  by destruct (symlink target r fsd (cwd w)).
Qed.

(** A call that returns has created the link on a file system where its
    name was free, and has changed the file system only. *)
Lemma symlink_force_success (target link_name : string) (w w1 : world) :
  symlink_force target link_name w = (Return tt, w1) →
  let r := if isdir (fs w) (cwd w) link_name
           then PosixPath.join link_name [PosixPath.basename target]
           else link_name in
  ∃ fs0 key,
    w1 = set_fs (<[key := Symlink target]> fs0) w
    ∧ locate false fs0 (cwd w) r = inr (Missing key)
    ∧ fs0 !! key = None
    ∧ locate false (<[key := Symlink target]> fs0) (cwd w) r
      = inr (Found key (Symlink target))
    ∧ PosixPath.is_empty target = false.
Proof.
  intros H1 r.
  assert (∃ fs0 fs1, symlink target r fs0 (cwd w) = inr fs1
                     ∧ w1 = set_fs fs1 w) as (fs0 & fs1 & S & ->).
  { rewrite symlink_force_eq in H1. cbv zeta in H1. fold r in H1.
    destruct (symlink target r (fs w) (cwd w)) as [[]|fs1] eqn:S1;
      try done.
    - destruct (unlink r (fs w) (cwd w)) as [e|fsd]; [done |].
      destruct (symlink target r fsd (cwd w)) as [e|fs2] eqn:S2; [done |].
      exists fsd, fs2. split; [done | by inversion H1].
    - exists (fs w), fs1. split; [done | by inversion H1]. }
  apply symlink_inr in S as (key & Lmiss & -> & Hnone & Lfound & Hne).
  by exists fs0, key.
Qed.

(** What a call that returns leaves behind. *)
Lemma symlink_force_links (target link_name : string) (w w1 : world) :
  symlink_force target link_name w = (Return tt, w1) →
  readlink (fs w1) (cwd w1)
    (if isdir (fs w) (cwd w) link_name
     then PosixPath.join link_name [PosixPath.basename target]
     else link_name) = Some target
  ∧ cwd w1 = cwd w ∧ stdout w1 = stdout w ∧ executed w1 = executed w.
Proof.
  intros H.
  destruct (symlink_force_success _ _ _ _ H)
    as (fs0 & key & -> & _ & _ & Lfound & _).
  cbn [fs cwd stdout executed set_fs]. repeat split.
  unfold readlink. by rewrite Lfound.
Qed.

End SymlinkFacts.

(** What [symlink_force] does keep of overwriting.  It never fails with an
    already-exists error: when creating the link reports that the resolved
    link path exists, the entry there is removed and the link is created
    again; every other error, of the first attempt, of the removal or of
    the second attempt, is raised.  A call that succeeds leaves a symbolic
    link to the target at the resolved link path and changes nothing but
    the file system.  A second call that resolves to the same link path
    succeeds and leaves the file system as the first call left it. *)
Theorem symlink_force_overwrites (target link_name : string) (w : world) :
  let r := if Fs.isdir (fs w) (cwd w) link_name
           then PosixPath.join link_name [PosixPath.basename target]
           else link_name in
  resolved_link_name target link_name w = (Return r, w)
  ∧ fst (symlink_force target link_name w) ≠ Raise (OSError EEXIST)
  ∧ (∀ w1, symlink_force target link_name w = (Return tt, w1) →
       Fs.readlink (fs w1) (cwd w1) r = Some target
       ∧ cwd w1 = cwd w ∧ stdout w1 = stdout w
       ∧ executed w1 = executed w
       ∧ (Fs.isdir (fs w1) (cwd w1) link_name
          = Fs.isdir (fs w) (cwd w) link_name →
          symlink_force target link_name w1 = (Return tt, w1)))
  ∧ match Fs.symlink target r (fs w) (cwd w) with
    | inl EEXIST =>
        symlink_force target link_name w
        = (os_remove r ;; os_symlink target r) w
    | inl e => symlink_force target link_name w = (Raise (OSError e), w)
    | inr fs1 => symlink_force target link_name w = (Return tt, set_fs fs1 w)
    end.
Proof.
  intros r. split; [reflexivity |]. split; [| split].
  - rewrite SymlinkFacts.symlink_force_eq. cbv zeta. fold r.
    destruct (Fs.symlink target r (fs w) (cwd w)) as [[]|fs1] eqn:S1;
      try done.
    destruct (Fs.unlink r (fs w) (cwd w)) as [e|fsd] eqn:U.
    + apply SymlinkFacts.unlink_error in U. simpl. congruence.
    + pose proof (SymlinkFacts.symlink_after_unlink target _ _ _ _ U) as N.
      destruct (Fs.symlink target r fsd (cwd w)) as [e|fs2]; [| done].
      simpl. congruence.
  - intros w1 H1.
    destruct (SymlinkFacts.symlink_force_links _ _ _ _ H1)
      as (Hread & Hcwd & Hout & Hexec).
    split; [exact Hread |]. split; [exact Hcwd |].
    split; [exact Hout |]. split; [exact Hexec |].
    destruct (SymlinkFacts.symlink_force_success _ _ _ _ H1)
      as (fs0 & key & -> & Lmiss & Hnone & Lfound & Hne).
    fold r in Lmiss, Lfound. cbn [fs cwd stdout executed set_fs].
    intros Hsame. rewrite SymlinkFacts.symlink_force_eq. cbv zeta.
    cbn [fs cwd stdout executed set_fs].
    rewrite Hsame. fold r.
    unfold Fs.symlink at 1. rewrite Hne, Lfound.
    unfold Fs.unlink. rewrite Lfound.
    rewrite delete_insert_id by done.
    unfold Fs.symlink. rewrite Hne, Lmiss. reflexivity.
  - unfold symlink_force. rewrite (MonadFacts.bind_Return _ _ w r w)
      by reflexivity.
    unfold try_OSError, os_symlink, os_call.
    destruct (Fs.symlink target r (fs w) (cwd w)) as [[]|fs1]; reflexivity.
Qed.

Lemma symlink_force_overwrites_witness :
  symlink_force "/d/src/.libs/libdispatch.so" "/a"
    (set_fs (<[ ["a"; "libdispatch.so"] := File ]> (fs one_dir_world))
       one_dir_world)
  = (os_remove "/a/libdispatch.so" ;;
     os_symlink "/d/src/.libs/libdispatch.so" "/a/libdispatch.so")
      (set_fs (<[ ["a"; "libdispatch.so"] := File ]> (fs one_dir_world))
         one_dir_world).
Proof.
  exact (proj2 (proj2 (proj2 (symlink_force_overwrites
                                "/d/src/.libs/libdispatch.so" "/a"
                                (set_fs (<[ ["a"; "libdispatch.so"] := File ]>
                                           (fs one_dir_world))
                                   one_dir_world))))).
Defined.

(** C5.  [symlink_force] is not idempotent, against its docstring ("If a
    file already exists at link_name, overwrite it").  The second of two
    calls can fail and take the link with it: with the directory [/a] as
    target and [/a/a] as link name, the first call makes the link [/a/a];
    the second call, led by [os.path.isdir] through that link to the name
    [/a/a/a], is told that the name exists, removes the link [/a/a] and
    then finds no directory to create it in.  It raises the error of the
    second [os.symlink] and no link is left. *)
Lemma symlink_force_twice_loses_link :
  ∃ w1,
    symlink_force "/a" "/a/a" one_dir_world = (Return tt, w1)
    ∧ Fs.readlink (fs w1) "/" "/a/a" = Some "/a"
    ∧ symlink_force "/a" "/a/a" w1 = (Raise (OSError ENOENT), one_dir_world)
    ∧ Fs.readlink (fs one_dir_world) "/" "/a/a" = None.
Proof.
  eexists. split; [vm_compute; reflexivity |].
  split; [vm_compute; reflexivity |].
  split; vm_compute; reflexivity.
Qed.

(** ** The link to libdispatch *)

Module LibdispatchFacts.
Import PosixPath PathFacts.

#[local] Arguments append : simpl nomatch.

(** The last field of a path that ends in a separator and a name. *)
Lemma split_sep_append_name (x s : string) :
  split_sep s = [s] →
  ∃ pre, split_sep (x +:+ String "/" s) = pre ++ [s] ∧ pre ≠ [].
Proof.
  intros Hs. induction x as [|c x (pre & IH & Hpre)].
  - exists [""]. simpl. by rewrite Hs.
  - change (String c x +:+ String "/" s) with (String c (x +:+ String "/" s)).
    simpl. rewrite IH. destruct (is_sep c).
    + exists ("" :: pre). done.
    + destruct pre as [|p pre]; [done |]. simpl.
      exists (String c p :: pre). done.
Qed.

Lemma basename_append_name (x s : string) :
  split_sep s = [s] → basename (x +:+ String "/" s) = s.
Proof.
  intros Hs. unfold basename.
  destruct (split_sep_append_name x s Hs) as (pre & -> & _).
  apply last_last.
Qed.

Lemma basename_libdispatch_so (d : string) :
  basename (libdispatch_so d) = "libdispatch.so".
Proof.
  unfold libdispatch_so, join. simpl fold_left.
  set (y := join_step d "src").
  rewrite (join_step_relative _ "libdispatch.so") by reflexivity.
  rewrite (join_step_relative y ".libs") by reflexivity.
  assert (E : ∀ z : string,
            is_empty (z +:+ ".libs") || endswith_sep (z +:+ ".libs") = false).
  { intros z. rewrite is_empty_append, andb_false_r.
    by rewrite (endswith_sep_append z "." "libs"). }
  destruct (is_empty y || endswith_sep y).
  - rewrite E. by apply basename_append_name.
  - rewrite <- (append_assoc y "/" ".libs"). rewrite E.
    by apply basename_append_name.
Qed.

End LibdispatchFacts.

Section GenericTestLink.

Import MonadFacts.

Variable tools : string -> filesystem -> string -> Z * filesystem.
Variable SOURCE_DIR : string.

Let test := GenericUnixStrategy_test tools SOURCE_DIR.

Ltac step :=
  first
    [ erewrite bind_Return by (apply attr_lookup; eassumption)
    | erewrite bind_Return by reflexivity ].

(** C9, as the code has it.  For a test configuration whose lit tool
    exists: when [--libdispatch-build-dir] was given, [test] first calls
    [symlink_force] with [libdispatch.so] of that build tree as target and
    the Foundation build directory as link name; if that fails, the test
    runner is not invoked; if it succeeds and the Foundation build
    directory is a directory, [libdispatch.so] in that directory is then a
    link to the target, and only in that state is the test runner invoked,
    with the compiler and the build, Foundation and CoreFoundation
    directories in its environment.  When the option was not given, no link
    is made and the runner is invoked at once. *)
Theorem test_links_libdispatch_before_runner
    (args : namespace) (lit foundation prefix swiftc : string)
    (lbd lsd bd : pyval) (w : world) :
  test_config args lit foundation prefix swiftc lbd lsd bd →
  Fs.exists_ (fs w) (cwd w) (PosixPath.abspath (cwd w) lit) = true →
  let foundation_build_dir := PosixPath.abspath (cwd w) foundation in
  let runner :=
    run tools
      (lit_command SOURCE_DIR (PosixPath.abspath (cwd w) swiftc)
         (format_value bd) foundation_build_dir
         (core_foundation_build_dir foundation_build_dir prefix)
         (libdispatch_src_args_of (cwd w) lsd lbd)
         (PosixPath.abspath (cwd w) lit)) in
  match lbd with
  | PStr d =>
      if PosixPath.is_empty d then test args w = runner w
      else
        match symlink_force (libdispatch_so d) foundation_build_dir w with
        | (Raise e, w1) => test args w = (Raise e, w1)
        | (Return _, w1) =>
            test args w = runner w1
            ∧ executed w1 = executed w
            ∧ (Fs.isdir (fs w) (cwd w) foundation_build_dir = true →
               Fs.readlink (fs w1) (cwd w1)
                 (PosixPath.join foundation_build_dir ["libdispatch.so"])
               = Some (libdispatch_so d))
        end
  | _ => test args w = runner w
  end.
Proof.
  intros [Hlit Hf Hp Hs Hlbd Hlsd Hbd Slbd Slsd] Hexists fbd runner.
  subst test runner. unfold GenericUnixStrategy_test.
  do 3 step. rewrite Hexists. cbn [negb].
  do 5 step.
  destruct Slbd as [-> | [d ->]]; [| destruct (PosixPath.is_empty d) eqn:Ed].
  - (* no libdispatch build directory *)
    do 2 step.
    destruct Slsd as [-> | [s ->]]; cbn [truthy];
      rewrite ?andb_false_r; repeat step; reflexivity.
  - (* an empty one *)
    cbn [truthy]. rewrite Ed. cbn [negb]. do 2 step.
    destruct Slsd as [-> | [s ->]]; cbn [truthy libdispatch_src_args_of];
      rewrite ?Ed; cbn [negb]; rewrite ?andb_false_r; repeat step;
      rewrite ?Ed; cbn [negb]; rewrite ?andb_false_r; reflexivity.
  - cbn [truthy]. rewrite Ed. cbn [negb].
    destruct (symlink_force (libdispatch_so d) fbd w) as [[[]|e] w1] eqn:S.
    + destruct (SymlinkFacts.symlink_force_links _ _ _ _ S)
        as (Hread & Hcwd & _ & Hexec).
      split; [| split; [done |]].
      * erewrite bind_Return; cycle 1.
        { do 2 step. exact S. }
        step.
        destruct Slsd as [-> | [s ->]];
          [| destruct (PosixPath.is_empty s) eqn:Es];
          cbn [truthy libdispatch_src_args_of];
          rewrite ?Ed, ?Es; cbn [negb andb]; repeat step;
          rewrite Hcwd; reflexivity.
      * intros Hdir. rewrite Hdir in Hread.
        by rewrite LibdispatchFacts.basename_libdispatch_so in Hread.
    + erewrite bind_Raise; [reflexivity |].
      do 2 step. exact S.
Qed.

End GenericTestLink.

Lemma linked_test_config :
  test_config linked_test_args "/lit.py" "/f" "/usr" "/s"
    (PStr "/d") PNone (PStr "/b").
Proof.
  split; try (vm_compute; reflexivity).
  - right. by exists "/d".
  - by left.
Qed.

Lemma test_links_libdispatch_before_runner_witness :
  ∃ w1,
    symlink_force (libdispatch_so "/d") "/f" test_world = (Return tt, w1)
    ∧ GenericUnixStrategy_test quiet_tools "/src" linked_test_args test_world
      = run quiet_tools
          (lit_command "/src" "/s" "/b" "/f" "/f/usr/lib/swift" "" "/lit.py")
          w1
    ∧ Fs.readlink (fs w1) "/" "/f/libdispatch.so"
      = Some "/d/src/.libs/libdispatch.so".
Proof.
  pose proof (test_links_libdispatch_before_runner quiet_tools "/src"
                linked_test_args "/lit.py" "/f" "/usr" "/s"
                (PStr "/d") PNone (PStr "/b") test_world
                linked_test_config eq_refl) as H.
  cbv zeta in H. cbn [PosixPath.is_empty] in H.
  destruct (symlink_force (libdispatch_so "/d")
              (PosixPath.abspath (cwd test_world) "/f") test_world)
    as [[[]|e] w1] eqn:S; [| by vm_compute in S].
  exists w1. destruct H as (H1 & _ & H3).
  split; [exact S |]. split; [exact H1 |]. apply H3. vm_compute. reflexivity.
Defined.

(** A test invocation without [--libdispatch-build-dir] runs the test
    runner and leaves the Foundation build directory without any
    [libdispatch.so]. *)
Lemma test_without_libdispatch_makes_no_link :
  ∃ w1,
    GenericUnixStrategy_test quiet_tools "/src" plain_test_args test_world
    = (Return tt, w1)
    ∧ executed w1
      = [lit_command "/src" "/s" "/b" "/f" "/f/usr/lib/swift" "" "/lit.py"]
    ∧ fs w1 = fs test_world
    ∧ Fs.readlink (fs w1) "/" "/f/libdispatch.so" = None
    ∧ Fs.exists_ (fs w1) "/" "/f/libdispatch.so" = false.
Proof.
  eexists. split; [vm_compute; reflexivity |].
  repeat split; vm_compute; reflexivity.
Qed.

(** ** mkdirp *)

(** On a path that exists [mkdirp] does nothing. *)
Lemma mkdirp_existing_noop tools (path : string) (w : world) :
  Fs.exists_ (fs w) (cwd w) path = true →
  mkdirp tools path w = (Return tt, w).
Proof.
  intros H. unfold mkdirp.
  rewrite (MonadFacts.bind_Return _ _ w true w); [done |].
  unfold os_path_exists. by rewrite H.
Qed.

(** On a path of plain names, here [/build/out], the first call makes the
    directory and its parent, and the second call changes nothing. *)
Example mkdirp_plain_path tools :
  ∃ w1,
    mkdirp tools "/build/out" empty_world = (Return tt, w1)
    ∧ Fs.isdir (fs w1) "/" "/build/out" = true
    ∧ executed w1 = ["mkdir -p /build/out"]
    ∧ mkdirp tools "/build/out" w1 = (Return tt, w1).
Proof.
  eexists. split; [vm_compute; reflexivity |].
  repeat split; vm_compute; reflexivity.
Qed.

Module MkdirFacts.
Import Fs FsFacts.

(** Making a directory at the free name a lookup ended on makes the same
    lookup, now following links, end on that directory. *)
Lemma walk_insert_dir (l : nat) (fs : filesystem)
    (cur comps key : list string) :
  walk l false fs cur comps = inr (Missing key) →
  walk l true (<[key := Dir]> fs) cur comps = inr (Found key Dir).
Proof.
  intros H. pose proof (walk_missing_lookup _ _ _ _ _ _ H) as Hnone.
  revert cur comps H. induction l as [|l IHl]; intros cur comps; [done |].
  revert cur. induction comps as [|c rest IHc]; intros cur; [done |].
  rewrite !walk_cons.
  case_bool_decide; [apply IHc |].
  case_bool_decide; [apply IHc |].
  destruct (decide (cur ++ [c] = key)) as [-> | Hne].
  - rewrite Hnone, lookup_insert_eq. by destruct rest.
  - rewrite lookup_insert_ne by done.
    destruct (fs !! (cur ++ [c])) as [[| |t']|] eqn:E.
    + apply IHc.
    + by destruct rest.
    + destruct rest; [done |]. apply IHl.
    + destruct rest; [| done]. intros [= ?]. done.
Qed.

(** After a successful [mkdir -p] the whole path leads to a directory. *)
Lemma mkdir_p_prefixes_isdir (comps done_comps : list string)
    (fs fs' : filesystem) :
  (∃ k, walk (S max_links) true fs [] done_comps = inr (Found k Dir)) →
  mkdir_p_prefixes fs done_comps comps = (true, fs') →
  ∃ k, walk (S max_links) true fs' [] (done_comps ++ comps)
       = inr (Found k Dir).
Proof.
  revert done_comps fs.
  induction comps as [|c rest IH]; intros done_comps fs Hdone H.
  - simpl in H. injection H as <-. by rewrite app_nil_r.
  - cbn [mkdir_p_prefixes] in H.
    replace (done_comps ++ c :: rest) with ((done_comps ++ [c]) ++ rest)
      by by rewrite <- app_assoc.
    destruct (walk (S max_links) true fs [] (done_comps ++ [c]))
      as [e|[k [| |t]|k]] eqn:W;
      try (apply (IH _ fs); [by exists k | exact H]);
      destruct (walk (S max_links) false fs [] (done_comps ++ [c]))
        as [e'|[k' n'|k']] eqn:W'; try done;
      (apply (IH _ (<[k' := Dir]> fs)); [| exact H]);
      exists k'; by apply walk_insert_dir.
Qed.

Lemma mkdir_p_isdir (fs fs' : filesystem) (cwd p : string) :
  PosixPath.isabs cwd = true →
  PosixPath.is_empty p = false →
  mkdir_p fs cwd p = (true, fs') →
  isdir fs' cwd p = true.
Proof.
  intros Hcwd Hp. unfold mkdir_p, isdir, locate. rewrite Hp.
  destruct (PosixPath.isabs p).
  - intros H.
    destruct (mkdir_p_prefixes_isdir (comps_of p) [] fs fs') as [k Hk];
      [by exists [] | exact H |].
    cbn [app] in Hk. by rewrite Hk.
  - unfold isdir, locate. rewrite Hcwd.
    destruct (PosixPath.is_empty cwd); [done |].
    destruct (walk (S max_links) true fs [] (comps_of cwd))
      as [e|[k [| |t]|k]] eqn:W; try done.
    intros H.
    destruct (mkdir_p_prefixes_isdir (comps_of p) (comps_of cwd) fs fs')
      as [k' ->]; [by exists k | exact H | done].
Qed.

End MkdirFacts.

Module ShellFacts.
Import Shell.

#[local] Arguments append : simpl nomatch.

Lemma fields_plain (p : string) : plain p = true → fields p = [p].
Proof.
  induction p as [|c p IH]; [done |].
  simpl. intros [Hc Hp]%andb_true_iff.
  case_bool_decide as Hsp; [by subst c |].
  by rewrite (IH Hp).
Qed.

Lemma words_mkdir_p (p : string) :
  plain p = true → PosixPath.is_empty p = false →
  words ("mkdir -p " +:+ p) = ["mkdir"; "-p"; p].
Proof.
  intros Hplain Hne. unfold words. simpl.
  rewrite (fields_plain p Hplain). simpl. by rewrite Hne.
Qed.

(** On one plain operand the shell runs [mkdir -p] on exactly that path. *)
Lemma exec_mkdir_p (tools : string -> filesystem -> string -> Z * filesystem)
    (p : string) (fs : filesystem) (cwd : string) :
  plain p = true → PosixPath.is_empty p = false → is_option p = false →
  exec tools ("mkdir -p " +:+ p) fs cwd
  = ((if fst (Fs.mkdir_p fs cwd p) then 0 else 1)%Z,
     snd (Fs.mkdir_p fs cwd p)).
Proof.
  intros Hplain Hne Hopt. unfold exec.
  rewrite (words_mkdir_p p Hplain Hne).
  cbn [forallb existsb mkdir_p_all]. rewrite Hplain, Hopt. cbn [andb orb negb].
  destruct (Fs.mkdir_p fs cwd p) as [ok fs']. simpl.
  by rewrite andb_true_r.
Qed.

End ShellFacts.

Lemma isdir_exists (f : filesystem) (cwd p : string) :
  Fs.isdir f cwd p = true → Fs.exists_ f cwd p = true.
Proof.
  unfold Fs.isdir, Fs.exists_.
  by destruct (Fs.locate true f cwd p) as [e|[k n|k]].
Qed.

(** On a path of plain characters (letters, digits and [/._-+,:@%]; no
    space, no leading [-]) [mkdirp] is idempotent: a call that returns
    leaves something at the path, a directory if nothing was there before,
    and a second call changes nothing. *)
Lemma mkdirp_idempotent_on_plain_paths
    (tools : string -> filesystem -> string -> Z * filesystem)
    (path : string) (w w1 : world) :
  Shell.plain path = true →
  PosixPath.is_empty path = false →
  Shell.is_option path = false →
  PosixPath.isabs (cwd w) = true →
  mkdirp tools path w = (Return tt, w1) →
  Fs.exists_ (fs w1) (cwd w1) path = true
  ∧ (Fs.exists_ (fs w) (cwd w) path = false →
     Fs.isdir (fs w1) (cwd w1) path = true)
  ∧ mkdirp tools path w1 = (Return tt, w1).
Proof.
  intros Hplain Hne Hopt Hcwd H.
  destruct (Fs.exists_ (fs w) (cwd w) path) eqn:E.
  - rewrite (mkdirp_existing_noop tools path w E) in H.
    injection H as <-. split; [done |]. split; [done |].
    by apply mkdirp_existing_noop.
  - assert (Hdir : Fs.isdir (fs w1) (cwd w1) path = true).
    { unfold mkdirp in H.
      rewrite (MonadFacts.bind_Return _ _ w false w) in H
        by (unfold os_path_exists; by rewrite E).
      cbn [negb] in H. unfold run, note, print, bind, check_call in H.
      cbn [fs cwd stdout executed tmp_count] in H.
      rewrite ShellFacts.exec_mkdir_p in H by done.
      destruct (Fs.mkdir_p (fs w) (cwd w) path) as [ok fs'] eqn:Mk.
      cbn [fst snd] in H. destruct ok; [| done].
      rewrite bool_decide_eq_true_2 in H by done.
      injection H as <-. cbn [fs cwd].
      by apply (MkdirFacts.mkdir_p_isdir (fs w)). }
    split; [by apply isdir_exists |]. split; [done |].
    apply mkdirp_existing_noop. by apply isdir_exists.
Qed.

(** C6 at a path with a space in it.  [mkdirp("/work/my dir")] finds
    nothing at the path and runs [mkdir -p /work/my dir]; the shell splits
    the command at the space, so the directories [/work/my] and [dir] (in
    the working directory) are made and [/work/my dir] is not.  The call
    returns without error, and so does a second call, which runs the same
    command again; the directory asked for is never there. *)
Theorem mkdirp_splits_path_at_spaces tools :
  ∃ w1 w2,
    mkdirp tools "/work/my dir" empty_world = (Return tt, w1)
    ∧ executed w1 = ["mkdir -p /work/my dir"]
    ∧ Fs.exists_ (fs w1) "/" "/work/my dir" = false
    ∧ Fs.isdir (fs w1) "/" "/work/my" = true
    ∧ Fs.isdir (fs w1) "/" "dir" = true
    ∧ mkdirp tools "/work/my dir" w1 = (Return tt, w2)
    ∧ executed w2 = ["mkdir -p /work/my dir"; "mkdir -p /work/my dir"]
    ∧ Fs.exists_ (fs w2) "/" "/work/my dir" = false.
Proof.
  eexists. eexists. split; [vm_compute; reflexivity |].
  split; [vm_compute; reflexivity |].
  split; [vm_compute; reflexivity |].
  split; [vm_compute; reflexivity |].
  split; [vm_compute; reflexivity |].
  split; [vm_compute; reflexivity |].
  split; vm_compute; reflexivity.
Qed.

(** ** GenericUnixStrategy.build *)

Module AbspathFacts.
Import PosixPath.

#[local] Arguments append : simpl nomatch.

Lemma isabs_append (a b : string) : isabs a = true → isabs (a +:+ b) = true.
Proof. by destruct a. Qed.

Lemma normpath_isabs (q : string) : isabs q = true → isabs (normpath q) = true.
Proof.
  destruct q as [|c q]; [done |]. simpl. intros Hc.
  unfold normpath. cbn [is_empty].
  assert (Hn : ∃ n, count_initial_slashes (String c q) = S n).
  { unfold count_initial_slashes. rewrite Hc.
    destruct q as [|c2 [|c3 q]]; [by exists 0%nat | |].
    - destruct (is_sep c2); by eexists.
    - destruct (is_sep c2); [destruct (is_sep c3) |]; by eexists. }
  destruct Hn as [n ->].
  by destruct n as [|[|n]].
Qed.

(** [os.path.abspath] of any path is absolute when the working directory
    is. *)
Lemma abspath_isabs (cwd p : string) :
  isabs cwd = true → isabs (abspath cwd p) = true.
Proof.
  intros Hcwd. unfold abspath. apply normpath_isabs.
  destruct (isabs p) eqn:Hp; [done |].
  unfold join. simpl. rewrite PathFacts.join_step_relative by done.
  destruct (is_empty cwd || endswith_sep cwd); by apply isabs_append.
Qed.

Lemma isabs_not_dash (p : string) :
  isabs p = true → Argparse.starts_with_dash p = false.
Proof.
  destruct p as [|c p]; [done |]. simpl. unfold is_sep.
  intros ->%bool_decide_eq_true. done.
Qed.

End AbspathFacts.

Module ChainParse.
Import Argparse.

Lemma parse_args_test s SOURCE_DIR tmp tokens :
  parse_args (subparsers s SOURCE_DIR tmp) false ("test" :: tokens)
  = parse_sub (test_parser s SOURCE_DIR) tokens.
Proof. simpl. by destruct (parse_sub (test_parser s SOURCE_DIR) tokens). Qed.

Lemma parse_args_install s SOURCE_DIR tmp tokens :
  parse_args (subparsers s SOURCE_DIR tmp) false ("install" :: tokens)
  = parse_sub install_parser tokens.
Proof. simpl. by destruct (parse_sub install_parser tokens). Qed.

(** The argument list of the test chain parses, and the namespace holds
    the compiler, the Foundation directory and the build directory it was
    given. *)
Lemma parse_test_chain SOURCE_DIR (swiftc fbd build_dir : string) :
  starts_with_dash swiftc = false →
  starts_with_dash fbd = false →
  starts_with_dash build_dir = false →
  let ns := test_chain_namespace SOURCE_DIR swiftc fbd build_dir in
  parse_sub (test_parser GenericUnixStrategy SOURCE_DIR)
    ["--swiftc"; swiftc; "--foundation-build-dir"; fbd; build_dir]
  = Parsed ns
  ∧ ns !! "func" = Some (PFunc OpTest)
  ∧ ns !! "build_dir" = Some (PStr build_dir)
  ∧ ns !! "swiftc" = Some (PStr swiftc)
  ∧ ns !! "foundation_build_dir" = Some (PStr fbd).
Proof.
  intros Hs Hf Hb ns. subst ns. unfold test_chain_namespace.
  unfold parse_sub.
  remember (defaults _ _) as ns0 eqn:Hns0.
  simpl. rewrite Hs. simpl. rewrite Hf. simpl. rewrite Hb. simpl.
  split; [done |].
  assert (F : ns0 !! "func" = Some (PFunc OpTest))
    by (subst ns0; reflexivity).
  repeat split.
  - by rewrite !lookup_insert_ne.
  - by rewrite lookup_insert_eq.
  - rewrite !lookup_insert_ne by done. by rewrite lookup_insert_eq.
  - rewrite lookup_insert_ne by done. by rewrite lookup_insert_eq.
Qed.

Lemma parse_install_chain (build_dir module_path lib_path : string) :
  starts_with_dash build_dir = false →
  starts_with_dash module_path = false →
  starts_with_dash lib_path = false →
  let ns := install_chain_namespace build_dir module_path lib_path in
  parse_sub install_parser
    [build_dir; "--module-install-path"; module_path;
     "--library-install-path"; lib_path]
  = Parsed ns
  ∧ ns !! "func" = Some (PFunc OpInstall)
  ∧ ns !! "build_dir" = Some (PStr build_dir)
  ∧ ns !! "module_install_path" = Some (PStr module_path)
  ∧ ns !! "library_install_path" = Some (PStr lib_path).
Proof.
  intros Hb Hm Hl ns. subst ns. unfold install_chain_namespace.
  unfold parse_sub.
  remember (defaults _ _) as ns0 eqn:Hns0.
  simpl. rewrite Hb. simpl. rewrite Hm. simpl. rewrite Hl. simpl.
  split; [done |].
  assert (F : ns0 !! "func" = Some (PFunc OpInstall))
    by (subst ns0; reflexivity).
  repeat split.
  - by rewrite !lookup_insert_ne.
  - rewrite !lookup_insert_ne by done. by rewrite lookup_insert_eq.
  - rewrite lookup_insert_ne by done. by rewrite lookup_insert_eq.
  - by rewrite lookup_insert_eq.
Qed.

End ChainParse.

Module BuildFacts.
Import MonadFacts.

Lemma bind_inv {A B} (m : M A) (k : A -> M B) w b w' :
  bind m k w = (Return b, w') →
  ∃ a w1, m w = (Return a, w1) ∧ k a w1 = (Return b, w').
Proof.
  unfold bind. destruct (m w) as [[a|e] w1]; [| done].
  intros H. by exists a, w1.
Qed.

Lemma bind_ext {A B} (m : M A) (k1 k2 : A -> M B) w :
  (∀ a w1, k1 a w1 = k2 a w1) → bind m k1 w = bind m k2 w.
Proof. intros H. unfold bind. by destruct (m w) as [[a|e] w1]. Qed.

Lemma attr_inv (args : namespace) (k : string) w v w1 :
  attr args k w = (Return v, w1) → w1 = w ∧ args !! k = Some v.
Proof.
  unfold attr. destruct (args !! k); [| done].
  by intros [= -> ->].
Qed.

Lemma abspath_of_inv (v : pyval) w p w1 :
  abspath_of v w = (Return p, w1) →
  w1 = w ∧ ∃ x, v = PStr x ∧ p = PosixPath.abspath (cwd w) x.
Proof.
  destruct v; try done. intros [= <- <-]. split; [done |]. by eexists.
Qed.

(** What compile-and-link hands on are absolute paths. *)
Lemma compile_and_link_absolute tools glob SOURCE_DIR (args : namespace)
    (w w1 : world) (swiftc build_dir fbd : string) :
  PosixPath.isabs (cwd w) = true →
  GenericUnixStrategy_compile_and_link tools glob SOURCE_DIR args w
  = (Return (swiftc, build_dir, fbd), w1) →
  PosixPath.isabs swiftc = true
  ∧ PosixPath.isabs build_dir = true
  ∧ PosixPath.isabs fbd = true.
Proof.
  intros Hcwd H. unfold GenericUnixStrategy_compile_and_link in H.
  apply bind_inv in H as (v1 & ? & [-> _]%attr_inv & H).
  apply bind_inv in H as (s & ? & [-> (x1 & -> & ->)]%abspath_of_inv & H).
  apply bind_inv in H as (v2 & ? & [-> _]%attr_inv & H).
  apply bind_inv in H as (b & ? & [-> (x2 & -> & ->)]%abspath_of_inv & H).
  apply bind_inv in H as (v3 & ? & [-> _]%attr_inv & H).
  apply bind_inv in H as (f & ? & [-> (x3 & -> & ->)]%abspath_of_inv & H).
  repeat (apply bind_inv in H as (? & ? & _ & H)).
  injection H as <- <- <- _.
  repeat split; by apply AbspathFacts.abspath_isabs.
Qed.

End BuildFacts.

Section BuildChain.

Import MonadFacts.

Variable tools : string -> filesystem -> string -> Z * filesystem.
Variable glob : filesystem -> string -> string -> list string.
Variable SOURCE_DIR : string.
Variable platform_system : string.
Variable tmpname : nat -> string.

Let main := main tools glob SOURCE_DIR platform_system tmpname.

(** The dispatcher takes the two chained argument lists to the test and
    install operations of the generic-Unix strategy. *)
Lemma main_dispatches_test (depth : nat) (swiftc fbd build_dir : string)
    (w : world) :
  platform_system ≠ "Darwin" →
  PosixPath.isabs swiftc = true →
  PosixPath.isabs fbd = true →
  PosixPath.isabs build_dir = true →
  main (S depth) (test_chain_args swiftc fbd build_dir) w
  = (tmp <- mkdtemp tmpname ;;
     GenericUnixStrategy_test tools SOURCE_DIR
       (test_chain_namespace SOURCE_DIR swiftc fbd build_dir)) w.
Proof.
  intros Hp Hs Hf Hb.
  destruct (ChainParse.parse_test_chain SOURCE_DIR swiftc fbd build_dir)
    as (P & F & _); try by apply AbspathFacts.isabs_not_dash.
  change (main (S depth) (test_chain_args swiftc fbd build_dir))
    with (parse_and_dispatch tools glob SOURCE_DIR platform_system tmpname
            (main depth) (test_chain_args swiftc fbd build_dir)).
  unfold parse_and_dispatch, bind.
  destruct (mkdtemp tmpname w) as [[tmp|e] w1]; [| done].
  unfold active_strategy. rewrite bool_decide_eq_false_2 by done.
  unfold test_chain_args at 1.
  rewrite ChainParse.parse_args_test, P.
  by rewrite (attr_lookup _ _ _ w1 F).
Qed.

Lemma main_dispatches_install (depth : nat)
    (build_dir module_path lib_path : string) (w : world) :
  platform_system ≠ "Darwin" →
  PosixPath.isabs build_dir = true →
  Argparse.starts_with_dash module_path = false →
  Argparse.starts_with_dash lib_path = false →
  main (S depth)
    (install_chain_args build_dir (PStr module_path) (PStr lib_path)) w
  = (tmp <- mkdtemp tmpname ;;
     GenericUnixStrategy_install tools
       (install_chain_namespace build_dir module_path lib_path)) w.
Proof.
  intros Hp Hb Hm Hl.
  destruct (ChainParse.parse_install_chain build_dir module_path lib_path)
    as (P & F & _); try done; try by apply AbspathFacts.isabs_not_dash.
  change (main (S depth)
            (install_chain_args build_dir (PStr module_path) (PStr lib_path)))
    with (parse_and_dispatch tools glob SOURCE_DIR platform_system tmpname
            (main depth)
            (install_chain_args build_dir (PStr module_path) (PStr lib_path))).
  unfold parse_and_dispatch, bind.
  destruct (mkdtemp tmpname w) as [[tmp|e] w1]; [| done].
  unfold active_strategy. rewrite bool_decide_eq_false_2 by done.
  unfold install_chain_args at 1. cbn [format_value].
  rewrite ChainParse.parse_args_install, P.
  by rewrite (attr_lookup _ _ _ w1 F).
Qed.

(** C7, as the code has it.  Once compile and link have succeeded, [build]
    goes on as follows.  If the test flag is set it re-enters the
    dispatcher, which calls the test operation on a namespace holding the
    build directory just produced; if that call raises, [build] ends there
    and install is not attempted.  Then, if both install paths were given,
    it re-enters the dispatcher with the install arguments, which (for
    paths the parser accepts as values) calls the install operation on a
    namespace holding the same build directory.  Test comes before
    install, and neither is called otherwise. *)
Theorem build_chains_test_then_install
    (args : namespace) (t mp lp : pyval) (swiftc build_dir fbd : string)
    (depth : nat) (w0 w : world) :
  platform_system ≠ "Darwin" →
  PosixPath.isabs (cwd w0) = true →
  GenericUnixStrategy_compile_and_link tools glob SOURCE_DIR args w0
  = (Return (swiftc, build_dir, fbd), w) →
  args !! "test" = Some t →
  args !! "module_path" = Some mp →
  args !! "lib_path" = Some lp →
  let test_call : M unit :=
    tmp <- mkdtemp tmpname ;;
    GenericUnixStrategy_test tools SOURCE_DIR
      (test_chain_namespace SOURCE_DIR swiftc fbd build_dir) in
  let install_call : M unit :=
    main (S depth) (install_chain_args build_dir mp lp) in
  GenericUnixStrategy_build tools glob SOURCE_DIR (main (S depth)) args w0
  = ((if truthy t then test_call else ret tt) ;;
     (if is_not_None mp && is_not_None lp then install_call else ret tt) ;;
     note "Done.") w
  ∧ test_chain_namespace SOURCE_DIR swiftc fbd build_dir !! "build_dir"
    = Some (PStr build_dir)
  ∧ (∀ e w', truthy t = true → test_call w = (Raise e, w') →
       GenericUnixStrategy_build tools glob SOURCE_DIR (main (S depth)) args w0
       = (Raise e, w'))
  ∧ (∀ m l w', mp = PStr m → lp = PStr l →
       Argparse.starts_with_dash m = false →
       Argparse.starts_with_dash l = false →
       install_call w'
       = (tmp <- mkdtemp tmpname ;;
          GenericUnixStrategy_install tools
            (install_chain_namespace build_dir m l)) w'
       ∧ install_chain_namespace build_dir m l !! "build_dir"
         = Some (PStr build_dir)).
Proof.
  intros Hp Hcwd Hcl Ht Hmp Hlp test_call install_call.
  destruct (BuildFacts.compile_and_link_absolute _ _ _ _ _ _ _ _ _ Hcwd Hcl)
    as (Hs & Hb & Hf).
  assert (Hbuild :
    GenericUnixStrategy_build tools glob SOURCE_DIR (main (S depth)) args w0
    = ((if truthy t then test_call else ret tt) ;;
       (if is_not_None mp && is_not_None lp then install_call else ret tt) ;;
       note "Done.") w).
  { unfold GenericUnixStrategy_build.
    rewrite (bind_Return _ _ w0 _ w Hcl).
    unfold GenericUnixStrategy_chain.
    rewrite (bind_Return _ _ w t w) by by apply attr_lookup.
    assert (Htest : ∀ k : unit -> M unit,
              ((if truthy t
                then main (S depth) (test_chain_args swiftc fbd build_dir)
                else ret tt) ;; k tt) w
              = ((if truthy t then test_call else ret tt) ;; k tt) w).
    { intros k. unfold bind. destruct (truthy t); [| done].
      by rewrite main_dispatches_test. }
    etransitivity; [apply (Htest (λ _, _)) |].
    apply BuildFacts.bind_ext. intros [] w1.
    rewrite (bind_Return _ _ w1 mp w1) by by apply attr_lookup.
    by rewrite (bind_Return _ _ w1 lp w1) by by apply attr_lookup. }
  split; [exact Hbuild |]. split; [| split].
  - destruct (ChainParse.parse_test_chain SOURCE_DIR swiftc fbd build_dir)
      as (_ & _ & B & _); try by apply AbspathFacts.isabs_not_dash.
    exact B.
  - intros e w' Htrue Hraise. rewrite Hbuild, Htrue.
    by apply bind_Raise.
  - intros m l w' -> -> Hm Hl. split.
    + by apply main_dispatches_install.
    + destruct (ChainParse.parse_install_chain build_dir m l)
        as (_ & _ & B & _); try done.
      by apply AbspathFacts.isabs_not_dash.
Qed.

End BuildChain.

Lemma build_chains_test_then_install_witness :
  GenericUnixStrategy_build quiet_tools two_sources "/src"
    (main quiet_tools two_sources "/src" "Linux" tmp_names 2)
    chained_build_args build_world
  = ((if truthy (PBool true)
      then tmp <- mkdtemp tmp_names ;;
           GenericUnixStrategy_test quiet_tools "/src"
             (test_chain_namespace "/src" "/s" "/f" "/b")
      else ret tt) ;;
     (if is_not_None (PStr "/m") && is_not_None (PStr "/l")
      then main quiet_tools two_sources "/src" "Linux" tmp_names 2
             (install_chain_args "/b" (PStr "/m") (PStr "/l"))
      else ret tt) ;;
     note "Done.")
      (snd (GenericUnixStrategy_compile_and_link quiet_tools two_sources
              "/src" chained_build_args build_world)).
Proof.
  refine (proj1
            (build_chains_test_then_install quiet_tools two_sources "/src"
               "Linux" tmp_names chained_build_args
               (PBool true) (PStr "/m") (PStr "/l") "/s" "/b" "/f" 1
               build_world _ _ _ _ _ _ _)).
  - discriminate.
  - reflexivity.
  - vm_compute. reflexivity.
  - vm_compute. reflexivity.
  - vm_compute. reflexivity.
  - vm_compute. reflexivity.
Defined.

(** A build with the test flag and both install paths, on a host where
    compile and link succeed but the lit tool is missing: the test chain
    raises, and [build] ends without installing anything.  Only [mkdir],
    the compiler and the linker were run, and the install directories were
    not made. *)
Lemma build_with_failing_test_skips_install :
  chained_build_args !! "module_path" = Some (PStr "/m")
  ∧ chained_build_args !! "lib_path" = Some (PStr "/l")
  ∧ ∃ w1,
      main quiet_tools two_sources "/src" "Linux" tmp_names 3
        chained_build_tokens build_world
      = (Raise (IOError (lit_missing_message "/llvm/utils/lit/lit.py")), w1)
      ∧ executed w1
        = ["mkdir -p /b";
           compile_command "/s" "-g" "/b" "/f" "/f/usr/lib/swift" ""
             (space_join (two_sources ∅ "/" ""));
           link_command "/s" "/b" "/f"]
      ∧ Fs.exists_ (fs w1) "/" "/m" = false
      ∧ Fs.exists_ (fs w1) "/" "/l" = false.
Proof.
  split; [vm_compute; reflexivity |].
  split; [vm_compute; reflexivity |].
  eexists. split; [vm_compute; reflexivity |].
  repeat split; vm_compute; reflexivity.
Qed.

(** * Further properties of the code *)

(** ** The argument list handed to the parser *)

(** X1.  [main] always hands the parser a list that holds a subcommand
    name or a help flag, and choosing the list again changes nothing. *)
Theorem effective_args_idempotent (args : list string) :
  (∃ a, a ∈ effective_args args ∧ a ∈ known_tokens)
  ∧ effective_args (effective_args args) = effective_args args.
Proof.
  assert (H : ∃ a, a ∈ effective_args args ∧ a ∈ known_tokens).
  { unfold effective_args.
    destruct (existsb _ args) eqn:E.
    - apply existsb_exists in E as [a [Ha Hk]]. exists a. split.
      + by apply list_elem_of_In.
      + by apply bool_decide_eq_true in Hk.
    - exists "build". split; [by left |].
      refine (bool_decide_unpack _ _). vm_compute. exact I. }
  split; [exact H |]. by apply effective_args_known.
Qed.

(** ** core_foundation_build_dir *)

Module CoreFoundationFacts.
Import PosixPath PathFacts.

#[local] Arguments append : simpl nomatch.

Lemma endswith_sep_append_nonempty (a b : string) :
  is_empty b = false → endswith_sep (a +:+ b) = endswith_sep b.
Proof. destruct b as [|c b]; [done |]. intros _. apply endswith_sep_append. Qed.

End CoreFoundationFacts.

(** X2.  The CoreFoundation directory always lies under the Foundation build
    directory and ends in [lib/swift]: an install prefix that is absolute
    does not replace the base, and one that is empty or made of separators
    only adds no component. *)
Theorem core_foundation_build_dir_closed_form (base prefix : string) :
  core_foundation_build_dir base prefix
  = base
    +:+ (if PosixPath.is_empty base || PosixPath.endswith_sep base
         then "" else "/")
    +:+ (if PosixPath.is_empty (PosixPath.strip_sep prefix) then ""
         else PosixPath.strip_sep prefix +:+ "/")
    +:+ "lib/swift".
Proof.
  unfold core_foundation_build_dir, PosixPath.join. cbn [fold_left].
  rewrite PathFacts.join_step_lib_swift.
  pose proof (PathFacts.startswith_sep_rstrip _
                (PathFacts.startswith_sep_lstrip prefix)) as Hs.
  pose proof (PathFacts.endswith_sep_rstrip (PosixPath.lstrip_sep prefix))
    as He.
  fold (PosixPath.strip_sep prefix) in Hs, He.
  set (s := PosixPath.strip_sep prefix) in *.
  rewrite (PathFacts.join_step_relative base s Hs).
  rewrite PathFacts.join_step_relative by reflexivity.
  destruct (PosixPath.is_empty s) eqn:Es.
  - destruct s; [| done].
    destruct (PosixPath.is_empty base || PosixPath.endswith_sep base) eqn:Eb.
    + rewrite !PathFacts.append_nil_r, Eb. done.
    + rewrite !PathFacts.append_nil_r.
      rewrite PathFacts.is_empty_append, andb_false_r.
      rewrite (PathFacts.endswith_sep_append base "/" "").
      cbn. by rewrite !PathFacts.append_assoc.
  - assert (E : ∀ x : string,
              PosixPath.is_empty (x +:+ s) || PosixPath.endswith_sep (x +:+ s)
              = false).
    { intros x. rewrite PathFacts.is_empty_append, Es, andb_false_r.
      by rewrite CoreFoundationFacts.endswith_sep_append_nonempty. }
    destruct (PosixPath.is_empty base || PosixPath.endswith_sep base).
    + rewrite E. by rewrite !PathFacts.append_assoc.
    + rewrite <- (PathFacts.append_assoc base "/" s), E.
      by rewrite !PathFacts.append_assoc.
Qed.

(** ** symlink_force and mkdirp on the file system *)

Module FrameFacts.
Import Fs FsFacts SymlinkFacts.

Lemma locate_delete_found (fs : filesystem) (cwd p : string)
    (key : list string) (n : node) :
  n ≠ Dir →
  locate false fs cwd p = inr (Found key n) →
  locate false (delete key fs) cwd p = inr (Missing key)
  ∨ locate false (delete key fs) cwd p = inl ENOENT.
Proof.
  unfold locate. destruct (PosixPath.is_empty p); [done |].
  apply walk_delete_found.
Qed.

(** A successful [unlink] removed the entry the path names, which was not
    a directory. *)
Lemma unlink_inr (p : string) (fs fsd : filesystem) (cwd : string) :
  unlink p fs cwd = inr fsd →
  ∃ key n, locate false fs cwd p = inr (Found key n)
           ∧ n ≠ Dir ∧ fs !! key = Some n ∧ fsd = delete key fs.
Proof.
  unfold unlink.
  destruct (locate false fs cwd p) as [e|[key n|key]] eqn:L; try done.
  intros H. exists key, n.
  assert (Hn : n ≠ Dir) by (by destruct n).
  assert (fsd = delete key fs) as -> by (destruct n; by inversion H).
  repeat split; try done.
  (* the entry found is the entry stored *)
  clear H. unfold locate in L. destruct (PosixPath.is_empty p); [done |].
  revert L. generalize (if PosixPath.isabs p then comps_of p
                        else comps_of cwd ++ comps_of p).
  generalize (@nil string) as cur. generalize (S max_links) as l.
  induction l as [|l IHl]; intros cur comps; [done |].
  revert cur. induction comps as [|c rest IHc]; intros cur.
  { rewrite walk_nil. intros [= _ <-]. done. }
  rewrite walk_cons.
  case_bool_decide; [apply IHc |].
  case_bool_decide; [apply IHc |].
  destruct (fs !! (cur ++ [c])) as [[| |t]|] eqn:E.
  - apply IHc.
  - destruct rest; [| done]. by intros [= <- <-].
  - destruct rest; [by intros [= <- <-] |]. apply IHl.
  - by destruct rest.
Qed.

(** [mkdir -p] only adds directories. *)
Lemma mkdir_p_prefixes_grows (comps done_comps : list string)
    (fs : filesystem) :
  (∀ k n, fs !! k = Some n →
          (mkdir_p_prefixes fs done_comps comps).2 !! k = Some n)
  ∧ (∀ k n, (mkdir_p_prefixes fs done_comps comps).2 !! k = Some n →
            fs !! k = Some n ∨ n = Dir).
Proof.
  revert done_comps fs.
  induction comps as [|c rest IH]; intros done_comps fs;
    [split; [done | intros k n Hk; by left] |].
  cbn [mkdir_p_prefixes].
  assert (Hkeep : ∀ fs0 : filesystem,
            (∀ k n, fs0 !! k = Some n →
               (mkdir_p_prefixes fs0 (done_comps ++ [c]) rest).2 !! k = Some n)
            ∧ (∀ k n,
                 (mkdir_p_prefixes fs0 (done_comps ++ [c]) rest).2 !! k
                 = Some n → fs0 !! k = Some n ∨ n = Dir)) by (intros; apply IH).
  assert (Hmake :
    match walk (S max_links) false fs [] (done_comps ++ [c]) with
    | inr (Missing key) =>
        mkdir_p_prefixes (<[key:=Dir]> fs) (done_comps ++ [c]) rest
    | _ => (false, fs)
    end = (false, fs)
    ∨ ∃ key, fs !! key = None
             ∧ match walk (S max_links) false fs [] (done_comps ++ [c]) with
               | inr (Missing key) =>
                   mkdir_p_prefixes (<[key:=Dir]> fs) (done_comps ++ [c]) rest
               | _ => (false, fs)
               end
               = mkdir_p_prefixes (<[key:=Dir]> fs) (done_comps ++ [c]) rest).
  { destruct (walk (S max_links) false fs [] (done_comps ++ [c]))
      as [e|[k n|k]] eqn:W; [by left | by left |].
    right. exists k. split; [by eapply walk_missing_lookup | done]. }
  assert (Hcase :
    (∀ k n, fs !! k = Some n →
       match walk (S max_links) false fs [] (done_comps ++ [c]) with
       | inr (Missing key) =>
           mkdir_p_prefixes (<[key:=Dir]> fs) (done_comps ++ [c]) rest
       | _ => (false, fs)
       end.2 !! k = Some n)
    ∧ (∀ k n,
         match walk (S max_links) false fs [] (done_comps ++ [c]) with
         | inr (Missing key) =>
             mkdir_p_prefixes (<[key:=Dir]> fs) (done_comps ++ [c]) rest
         | _ => (false, fs)
         end.2 !! k = Some n → fs !! k = Some n ∨ n = Dir)).
  { destruct Hmake as [-> | (key & Hnone & ->)];
      [split; [done | intros k n Hk; by left] |].
    destruct (Hkeep (<[key:=Dir]> fs)) as [K1 K2]. split.
    - intros k n Hk. apply K1. rewrite lookup_insert_ne; [done |].
      intros ->. congruence.
    - intros k n Hk. apply K2 in Hk as [Hk | ->]; [| by right].
      destruct (decide (key = k)) as [-> | Hne].
      + rewrite lookup_insert_eq in Hk. right. congruence.
      + rewrite lookup_insert_ne in Hk by done. by left. }
  destruct (walk (S max_links) true fs [] (done_comps ++ [c]))
    as [e|[k [| |t]|k]]; try exact Hcase.
  apply Hkeep.
Qed.

Lemma mkdir_p_grows (fs : filesystem) (cwd p : string) :
  (∀ k n, fs !! k = Some n → (mkdir_p fs cwd p).2 !! k = Some n)
  ∧ (∀ k n, (mkdir_p fs cwd p).2 !! k = Some n →
            fs !! k = Some n ∨ n = Dir).
Proof.
  unfold mkdir_p. destruct (PosixPath.isabs p).
  - apply mkdir_p_prefixes_grows.
  - destruct (isdir fs cwd cwd); [apply mkdir_p_prefixes_grows |].
    split; [done | intros k n Hk; by left].
Qed.

End FrameFacts.

(** X3.  [symlink_force] changes at most one directory entry, whatever its
    outcome, and that entry is never a directory; it prints nothing, runs
    nothing and stays in its working directory. *)
Theorem symlink_force_touches_one_entry (target link_name : string)
    (w : world) :
  let w' := snd (symlink_force target link_name w) in
  cwd w' = cwd w ∧ stdout w' = stdout w ∧ executed w' = executed w
  ∧ tmp_count w' = tmp_count w
  ∧ (∃ key, ∀ k, k ≠ key → fs w' !! k = fs w !! k)
  ∧ (∀ k, fs w !! k = Some Dir → fs w' !! k = Some Dir).
Proof.
  cbv zeta. rewrite SymlinkFacts.symlink_force_eq. cbv zeta.
  set (r := if Fs.isdir (fs w) (cwd w) link_name then _ else _).
  assert (Hsame : ∀ e : exn,
    cwd (Raise e : outcome unit, w).2 = cwd w
    ∧ stdout (Raise e : outcome unit, w).2 = stdout w
    ∧ executed (Raise e : outcome unit, w).2 = executed w
    ∧ tmp_count (Raise e : outcome unit, w).2 = tmp_count w
    ∧ (∃ key, ∀ k, k ≠ key → fs (Raise e : outcome unit, w).2 !! k = fs w !! k)
    ∧ (∀ k, fs w !! k = Some Dir →
            fs (Raise e : outcome unit, w).2 !! k = Some Dir)).
  { intros e. repeat split; try done. by exists []. }
  destruct (Fs.symlink target r (fs w) (cwd w)) as [[]|fs1] eqn:S1;
    try apply Hsame.
  - destruct (Fs.unlink r (fs w) (cwd w)) as [e|fsd] eqn:U; [apply Hsame |].
    apply FrameFacts.unlink_inr in U as (key & n & L & Hn & Hkey & ->).
    assert (Hdel : ∀ k, fs w !! k = Some Dir →
                        delete key (fs w) !! k = Some Dir).
    { intros k Hk. rewrite lookup_delete_ne; [done |]. congruence. }
    destruct (Fs.symlink target r (delete key (fs w)) (cwd w))
      as [e|fs2] eqn:S2.
    + cbn [snd fs cwd stdout executed tmp_count set_fs].
      repeat split; try done.
      exists key. intros k Hk. by rewrite lookup_delete_ne.
    + apply SymlinkFacts.symlink_inr in S2 as (key' & L' & -> & _).
      destruct (FrameFacts.locate_delete_found _ _ _ _ _ Hn L) as [L2 | L2];
        rewrite L2 in L'; [| done].
      injection L' as <-.
      cbn [snd fs cwd stdout executed tmp_count set_fs].
      repeat split; try done.
      * exists key. intros k Hk. by rewrite lookup_insert_ne, lookup_delete_ne.
      * intros k Hk. rewrite lookup_insert_ne; [by apply Hdel |]. congruence.
  - apply SymlinkFacts.symlink_inr in S1 as (key & L & -> & Hnone & _).
    cbn [snd fs cwd stdout executed tmp_count set_fs].
    repeat split; try done.
    + exists key. intros k Hk. by rewrite lookup_insert_ne.
    + intros k Hk. rewrite lookup_insert_ne; [done |]. congruence.
Qed.

(** X4.  [symlink_force] does not replace a directory: for a target that
    is not the empty string, when the resolved link path is a directory
    the call raises the error of [os.remove] and changes nothing. *)
Theorem symlink_force_keeps_directory (target link_name : string)
    (w : world) (key : list string) :
  PosixPath.is_empty target = false →
  Fs.locate false (fs w) (cwd w)
    (if Fs.isdir (fs w) (cwd w) link_name
     then PosixPath.join link_name [PosixPath.basename target]
     else link_name)
  = inr (Found key Dir) →
  symlink_force target link_name w = (Raise (OSError EISDIR), w).
Proof.
  intros Ht L. rewrite SymlinkFacts.symlink_force_eq. cbv zeta.
  unfold Fs.symlink at 1. rewrite Ht, L.
  unfold Fs.unlink. by rewrite L.
Qed.

Lemma symlink_force_keeps_directory_witness :
  symlink_force "/d/src/.libs/libdispatch.so" "/f" occupied_world
  = (Raise (OSError EISDIR), occupied_world).
Proof.
  apply (symlink_force_keeps_directory "/d/src/.libs/libdispatch.so" "/f"
           occupied_world ["f"; "libdispatch.so"]).
  - reflexivity.
  - vm_compute. reflexivity.
Defined.

(** X5.  On a path of plain characters [mkdirp] only adds directories: every
    entry that was there stays as it was, and every new entry is a
    directory.  This holds whether or not [mkdir] succeeds. *)
Theorem mkdirp_only_adds_directories
    (tools : string -> filesystem -> string -> Z * filesystem)
    (path : string) (w : world) :
  Shell.plain path = true →
  PosixPath.is_empty path = false →
  Shell.is_option path = false →
  let w' := snd (mkdirp tools path w) in
  (∀ k n, fs w !! k = Some n → fs w' !! k = Some n)
  ∧ (∀ k n, fs w' !! k = Some n → fs w !! k = Some n ∨ n = Dir)
  ∧ cwd w' = cwd w.
Proof.
  intros Hplain Hne Hopt. cbv zeta.
  destruct (Fs.exists_ (fs w) (cwd w) path) eqn:E.
  - rewrite (mkdirp_existing_noop tools path w E).
    repeat split; try done. intros k n Hk. by left.
  - unfold mkdirp.
    rewrite (MonadFacts.bind_Return _ _ w false w)
      by (unfold os_path_exists; by rewrite E).
    cbn [negb]. unfold run, note, print, bind, check_call.
    cbn [fs cwd stdout executed tmp_count].
    rewrite ShellFacts.exec_mkdir_p by done.
    destruct (FrameFacts.mkdir_p_grows (fs w) (cwd w) path) as [G1 G2].
    destruct (Fs.mkdir_p (fs w) (cwd w) path) as [ok fs'].
    cbn [fst snd] in *.
    by case_bool_decide.
Qed.

Lemma mkdirp_only_adds_directories_witness :
  fs (snd (mkdirp quiet_tools "/f/out" test_world)) !! ["lit.py"] = Some File.
Proof.
  refine (proj1 (mkdirp_only_adds_directories quiet_tools "/f/out"
                   test_world _ _ _) ["lit.py"] File _);
    vm_compute; reflexivity.
Defined.

(** ** Invariants of every run of the script *)

(** A property of computations that holds of the primitive effects and is
    kept by sequencing holds of every function of the script, and so of
    [main] at every depth. *)
Section Compositional.

Variable tools : string -> filesystem -> string -> Z * filesystem.
Variable glob : filesystem -> string -> string -> list string.
Variable SOURCE_DIR : string.
Variable platform_system : string.
Variable tmpname : nat -> string.

Variable P : ∀ A : Type, M A → Prop.

Hypothesis P_ret : ∀ A (a : A), P A (ret a).
Hypothesis P_raise :
  ∀ A e, (∀ st c, e ≠ CalledProcessError st c) → P A (raise e).
Hypothesis P_bind :
  ∀ A B (m : M A) (k : A → M B), P A m → (∀ a, P B (k a)) → P B (bind m k).
Hypothesis P_try :
  ∀ A (m : M A) h, P A m → (∀ e, P A (h e)) → P A (try_OSError m h).
Hypothesis P_read : ∀ A (f : world → A), P A (λ w, (Return (f w), w)).
Hypothesis P_os_call : ∀ f, P unit (os_call f).
Hypothesis P_print : ∀ line, P unit (print line).
Hypothesis P_run_command : ∀ command, P unit (run tools command).
Hypothesis P_mkdtemp : P string (mkdtemp tmpname).

Lemma P_attr (args : namespace) (name : string) : P _ (attr args name).
Proof. unfold attr. destruct (args !! name); [apply P_ret | by apply P_raise]. Qed.

Lemma P_abspath_of v : P _ (abspath_of v).
Proof.
  destruct v; try by apply P_raise.
  exact (P_read _ (λ w, PosixPath.abspath (cwd w) s)).
Qed.

Lemma P_str_of v : P _ (str_of v).
Proof. destruct v; try by apply P_raise. apply P_ret. Qed.

Lemma P_exists p : P _ (os_path_exists p).
Proof. exact (P_read _ (λ w, Fs.exists_ (fs w) (cwd w) p)). Qed.

Lemma P_isdir p : P _ (os_path_isdir p).
Proof. exact (P_read _ (λ w, Fs.isdir (fs w) (cwd w) p)). Qed.

Lemma P_glob pattern : P _ (os_glob glob pattern).
Proof. exact (P_read _ (λ w, glob (fs w) (cwd w) pattern)). Qed.

Lemma P_run command : P _ (run tools command).
Proof. apply P_run_command. Qed.

Lemma P_note msg : P _ (_note msg).
Proof. apply P_print. Qed.

Lemma P_mkdirp path : P _ (_mkdirp tools path).
Proof.
  unfold _mkdirp, mkdirp. apply P_bind; [apply P_exists |].
  intros []; [apply P_ret | apply P_run].
Qed.

Lemma P_symlink_force target link_name : P _ (symlink_force target link_name).
Proof.
  unfold symlink_force, resolved_link_name.
  apply P_bind.
  - apply P_bind; [apply P_isdir | intros; apply P_ret].
  - intros r. apply P_try; [apply P_os_call |].
    intros e. case_bool_decide.
    + apply P_bind; [apply P_os_call | intros; apply P_os_call].
    + by apply P_raise.
Qed.

Ltac compositional_step :=
  lazymatch goal with
  | |- P _ (run _ _) => apply P_run
  | |- P _ (_note _) => apply P_note
  | |- P _ (_mkdirp _ _) => apply P_mkdirp
  | |- P _ (symlink_force _ _) => apply P_symlink_force
  | |- P _ (attr _ _) => apply P_attr
  | |- P _ (abspath_of _) => apply P_abspath_of
  | |- P _ (str_of _) => apply P_str_of
  | |- P _ (os_glob _ _) => apply P_glob
  | |- P _ (os_path_exists _) => apply P_exists
  | |- P _ (mkdtemp _) => apply P_mkdtemp
  | |- P _ (ret _) => apply P_ret
  | |- P _ (raise _) => apply P_raise; intros; discriminate
  | |- P _ (if ?b then _ else _) => destruct b
  | |- P _ (bind _ _) => apply P_bind; [| intros ?]
  end.

Ltac compositional := repeat compositional_step.

Lemma P_DarwinStrategy_test args : P _ (DarwinStrategy_test tools SOURCE_DIR args).
Proof. unfold DarwinStrategy_test. compositional. Qed.

Lemma P_DarwinStrategy_install args : P _ (DarwinStrategy_install args).
Proof. unfold DarwinStrategy_install. compositional. Qed.

Lemma P_GenericUnixStrategy_test args :
  P _ (GenericUnixStrategy_test tools SOURCE_DIR args).
Proof. unfold GenericUnixStrategy_test. compositional. Qed.

Lemma P_GenericUnixStrategy_install args :
  P _ (GenericUnixStrategy_install tools args).
Proof. unfold GenericUnixStrategy_install. compositional. Qed.

Lemma P_compile_and_link args :
  P _ (GenericUnixStrategy_compile_and_link tools glob SOURCE_DIR args).
Proof. unfold GenericUnixStrategy_compile_and_link. compositional. Qed.

Lemma P_operation s op (callee : list string → M unit) args :
  (∀ tokens, P _ (callee tokens)) →
  P _ (operation_of tools glob SOURCE_DIR s op callee args).
Proof.
  intros Hcallee. destruct s, op; cbn [operation_of].
  - unfold DarwinStrategy_build. compositional. apply Hcallee.
  - apply P_DarwinStrategy_test.
  - apply P_DarwinStrategy_install.
  - unfold GenericUnixStrategy_build. apply P_bind; [apply P_compile_and_link |].
    intros [[swiftc build_dir] fbd].
    unfold GenericUnixStrategy_chain. compositional; apply Hcallee.
  - apply P_GenericUnixStrategy_test.
  - apply P_GenericUnixStrategy_install.
Qed.

Lemma P_dispatch (callee : list string → M unit) tokens (tmp : string) :
  (∀ tokens, P _ (callee tokens)) →
  P _ (match Argparse.parse_args
               (subparsers (active_strategy platform_system) SOURCE_DIR tmp)
               false tokens with
       | ParseExit code => raise (SystemExit code)
       | Parsed parsed_args =>
           f <- attr parsed_args "func" ;;
           match f with
           | PFunc op =>
               operation_of tools glob SOURCE_DIR
                 (active_strategy platform_system) op callee parsed_args
           | _ => raise TypeError
           end
       end).
Proof.
  intros Hcallee.
  destruct (Argparse.parse_args _ false tokens) as [ns|code];
    [| by apply P_raise].
  apply P_bind; [apply P_attr |]. intros [| | |op]; try by apply P_raise.
  by apply P_operation.
Qed.

Lemma P_parse_and_dispatch (callee : list string → M unit) tokens :
  (∀ tokens, P _ (callee tokens)) →
  P _ (parse_and_dispatch tools glob SOURCE_DIR platform_system tmpname
         callee tokens).
Proof.
  intros Hcallee. unfold parse_and_dispatch.
  apply P_bind; [apply P_mkdtemp |]. intros tmp. by apply P_dispatch.
Qed.

Lemma P_main depth args :
  P _ (main tools glob SOURCE_DIR platform_system tmpname depth args).
Proof.
  revert args. induction depth as [|depth IH]; intros args.
  - by apply P_raise.
  - apply P_parse_and_dispatch. exact IH.
Qed.

End Compositional.

Module InvariantFacts.

Lemma announces_ret {A} (a : A) : announces (ret a).
Proof.
  intros w. exists [], []. simpl. rewrite !app_nil_r. repeat split.
  apply sublist_nil_l.
Qed.

Lemma announces_raise {A} (e : exn) : announces (@raise A e).
Proof.
  intros w. exists [], []. simpl. rewrite !app_nil_r. repeat split.
  apply sublist_nil_l.
Qed.

Lemma announces_then {A B} (m : M A) (k : A → M B) :
  announces m → (∀ a, announces (k a)) → announces (bind m k).
Proof.
  intros Hm Hk w. unfold bind.
  destruct (Hm w) as (c1 & l1 & E1 & O1 & S1 & C1).
  destruct (m w) as [[a|e] w1]; simpl in *.
  - destruct (Hk a w1) as (c2 & l2 & E2 & O2 & S2 & C2).
    exists (c1 ++ c2), (l1 ++ l2).
    rewrite E2, O2, C2, E1, O1, C1, !app_assoc, map_app.
    repeat split. by apply sublist_app.
  - by exists c1, l1.
Qed.

Lemma announces_try {A} (m : M A) (h : errno → M A) :
  announces m → (∀ e, announces (h e)) → announces (try_OSError m h).
Proof.
  intros Hm Hh w. unfold try_OSError.
  destruct (Hm w) as (c1 & l1 & E1 & O1 & S1 & C1).
  destruct (m w) as [[a|[]] w1]; simpl in *;
    try (by exists c1, l1).
  destruct (Hh e w1) as (c2 & l2 & E2 & O2 & S2 & C2).
  exists (c1 ++ c2), (l1 ++ l2).
  rewrite E2, O2, C2, E1, O1, C1, !app_assoc, map_app.
  repeat split. by apply sublist_app.
Qed.

Lemma announces_read {A} (f : world → A) :
  announces (λ w, (Return (f w), w)).
Proof.
  intros w. exists [], []. simpl. rewrite !app_nil_r. repeat split.
  apply sublist_nil_l.
Qed.

Lemma announces_os_call f : announces (os_call f).
Proof.
  intros w. exists [], []. unfold os_call.
  destruct (f (fs w) (cwd w)); simpl; rewrite !app_nil_r; repeat split;
    apply sublist_nil_l.
Qed.

Lemma announces_print line : announces (print line).
Proof.
  intros w. exists [], [line]. simpl. rewrite app_nil_r. repeat split.
  apply sublist_nil_l.
Qed.

Lemma announces_run tools command : announces (run tools command).
Proof.
  intros w. exists [command], [note_line command].
  unfold run, note, print, bind, check_call. simpl.
  destruct (Shell.exec tools command (fs w) (cwd w)) as [st f].
  by case_bool_decide.
Qed.

Lemma announces_mkdtemp tmpname : announces (mkdtemp tmpname).
Proof.
  intros w. exists [], []. unfold mkdtemp.
  destruct (Fs.locate false (fs w) (cwd w) (tmpname (tmp_count w)))
    as [e|[k n|k]]; simpl; rewrite !app_nil_r; repeat split;
    apply sublist_nil_l.
Qed.

Lemma fail_fast_then {A B} (m : M A) (k : A → M B) :
  fail_fast m → (∀ a, fail_fast (k a)) → fail_fast (bind m k).
Proof.
  intros Hm Hk w st c w'. unfold bind.
  destruct (m w) as [[a|e] w1] eqn:E.
  - apply Hk.
  - intros [= -> ->]. by apply (Hm w).
Qed.

Lemma fail_fast_try {A} (m : M A) (h : errno → M A) :
  fail_fast m → (∀ e, fail_fast (h e)) → fail_fast (try_OSError m h).
Proof.
  intros Hm Hh w st c w'. unfold try_OSError.
  destruct (m w) as [[a|[]] w1] eqn:E; try done.
  - apply Hh.
  - intros [= -> -> ->]. by apply (Hm w).
Qed.

Lemma fail_fast_run tools command : fail_fast (run tools command).
Proof.
  intros w st c w'. unfold run, note, print, bind, check_call. simpl.
  destruct (Shell.exec tools command (fs w) (cwd w)) as [st' f].
  case_bool_decide as Hst; [done |].
  intros [= -> -> <-]. split; [done |]. by eexists.
Qed.

Lemma fail_fast_mkdtemp tmpname : fail_fast (mkdtemp tmpname).
Proof.
  intros w st c w'. unfold mkdtemp.
  by destruct (Fs.locate false (fs w) (cwd w) (tmpname (tmp_count w)))
    as [e|[k n|k]].
Qed.

Lemma fail_fast_os_call f : fail_fast (os_call f).
Proof.
  intros w st c w'. unfold os_call. by destruct (f (fs w) (cwd w)).
Qed.

End InvariantFacts.

(** X6.  Every run of [main], whatever its arguments, its host and its
    outcome: the two logs only grow, the line of every command run was
    printed, in the order of the commands, and the working directory is
    the one it started in. *)
Theorem main_announces_every_command
    (tools : string -> filesystem -> string -> Z * filesystem)
    (glob : filesystem -> string -> string -> list string)
    (SOURCE_DIR platform_system : string) (tmpname : nat -> string)
    (depth : nat) (args : list string) (w : world) :
  let w' := snd (main tools glob SOURCE_DIR platform_system tmpname depth
                   args w) in
  ∃ cmds lines,
    executed w' = executed w ++ cmds
    ∧ stdout w' = stdout w ++ lines
    ∧ sublist (map note_line cmds) lines
    ∧ cwd w' = cwd w.
Proof.
  apply (P_main tools glob SOURCE_DIR platform_system tmpname (@announces)).
  - intros. apply InvariantFacts.announces_ret.
  - intros. apply InvariantFacts.announces_raise.
  - intros. by apply InvariantFacts.announces_then.
  - intros. by apply InvariantFacts.announces_try.
  - intros. apply InvariantFacts.announces_read.
  - intros. apply InvariantFacts.announces_os_call.
  - intros. apply InvariantFacts.announces_print.
  - intros. apply InvariantFacts.announces_run.
  - apply InvariantFacts.announces_mkdtemp.
Qed.

(** X7.  A failed external command is fatal: when [main] ends in a
    [CalledProcessError], the command it names exited with a non-zero
    status and is the last command the script ran. *)
Theorem main_stops_at_first_failing_command
    (tools : string -> filesystem -> string -> Z * filesystem)
    (glob : filesystem -> string -> string -> list string)
    (SOURCE_DIR platform_system : string) (tmpname : nat -> string)
    (depth : nat) (args : list string) (w w' : world)
    (status : Z) (command : string) :
  main tools glob SOURCE_DIR platform_system tmpname depth args w
  = (Raise (CalledProcessError status command), w') →
  status ≠ 0%Z ∧ ∃ before, executed w' = before ++ [command].
Proof.
  apply (P_main tools glob SOURCE_DIR platform_system tmpname (@fail_fast)).
  - by intros A a w0 st c w1.
  - intros A e He w0 st c w1 [= -> ->]. by destruct (He st c).
  - intros. by apply InvariantFacts.fail_fast_then.
  - intros. by apply InvariantFacts.fail_fast_try.
  - by intros A f w0 st c w1.
  - intros. apply InvariantFacts.fail_fast_os_call.
  - by intros line w0 st c w1.
  - intros. apply InvariantFacts.fail_fast_run.
  - apply InvariantFacts.fail_fast_mkdtemp.
Qed.

Lemma main_stops_at_first_failing_command_witness :
  (1 ≠ 0)%Z
  ∧ ∃ before,
      executed (snd (main failing_tools two_sources "/src" "Linux" tmp_names
                       3 chained_build_tokens build_world))
      = before
        ++ [compile_command "/s" "-g" "/b" "/f" "/f/usr/lib/swift" ""
              (space_join (two_sources ∅ "/" ""))].
Proof.
  apply (main_stops_at_first_failing_command failing_tools two_sources
           "/src" "Linux" tmp_names 3 chained_build_tokens build_world).
  vm_compute. reflexivity.
Defined.

(** ** The depth of the recursion *)

Module DepthFacts.
Import MonadFacts Argparse.

Lemma bind_ext2 {A B} (m1 m2 : M A) (k1 k2 : A -> M B) w :
  m1 w = m2 w → (∀ a w1, k1 a w1 = k2 a w1) → bind m1 k1 w = bind m2 k2 w.
Proof. intros Hm Hk. unfold bind. rewrite Hm. by destruct (m2 w) as [[a|e] w1]. Qed.

Lemma test_parser_dests s SOURCE_DIR a :
  In a (sub_spec (test_parser s SOURCE_DIR)) → dest a ≠ "func".
Proof. simpl. intros H. repeat (destruct H as [<- | H]; [done |]). done. Qed.

Lemma install_parser_dests a :
  In a (sub_spec install_parser) → dest a ≠ "func".
Proof. simpl. intros H. repeat (destruct H as [<- | H]; [done |]). done. Qed.

Section Depth.

Variable tools : string -> filesystem -> string -> Z * filesystem.
Variable glob : filesystem -> string -> string -> list string.
Variable SOURCE_DIR : string.
Variable platform_system : string.
Variable tmpname : nat -> string.

Let script := main tools glob SOURCE_DIR platform_system tmpname.
Let dispatch :=
  parse_and_dispatch tools glob SOURCE_DIR platform_system tmpname.
Let operation := operation_of tools glob SOURCE_DIR.

(** An operation calls [main] on chained lists only. *)
Lemma operation_of_ext s op (m1 m2 : list string → M unit) args w :
  (∀ tokens w', chained tokens → m1 tokens w' = m2 tokens w') →
  operation s op m1 args w = operation s op m2 args w.
Proof.
  intros H. destruct s, op; try reflexivity; subst operation;
    cbn [operation_of].
  - unfold DarwinStrategy_build.
    repeat (apply BuildFacts.bind_ext; intros ? ?).
    destruct (truthy _); [| done]. apply H. by eexists; left.
  - unfold GenericUnixStrategy_build.
    apply BuildFacts.bind_ext. intros [[swiftc build_dir] fbd] w1.
    unfold GenericUnixStrategy_chain.
    apply BuildFacts.bind_ext. intros t w2.
    apply bind_ext2.
    { destruct (truthy t); [| done]. apply H. by eexists; left. }
    intros _ w3. repeat (apply BuildFacts.bind_ext; intros ? ?).
    apply bind_ext2; [| done].
    destruct (_ && _); [| done]. apply H. by eexists; right.
Qed.

(** A chained list is dispatched to [test] or [install], which call [main]
    no further. *)
Lemma chained_dispatch (m1 m2 : list string → M unit) tokens w :
  chained tokens →
  dispatch m1 tokens w = dispatch m2 tokens w.
Proof.
  intros [rest [-> | ->]]; subst dispatch;
    unfold parse_and_dispatch;
    apply BuildFacts.bind_ext; intros tmp w1.
  - rewrite ChainParse.parse_args_test.
    destruct (parse_sub _ rest) as [ns|code] eqn:E; [| done].
    apply ArgparseFacts.parse_sub_func in E;
      [| apply test_parser_dests].
    rewrite !(bind_Return _ _ w1 _ w1 (attr_lookup _ _ _ w1 E)).
    by destruct (active_strategy platform_system).
  - rewrite ChainParse.parse_args_install.
    destruct (parse_sub _ rest) as [ns|code] eqn:E; [| done].
    apply ArgparseFacts.parse_sub_func in E;
      [| apply install_parser_dests].
    rewrite !(bind_Return _ _ w1 _ w1 (attr_lookup _ _ _ w1 E)).
    by destruct (active_strategy platform_system).
Qed.

Lemma main_chained (d1 d2 : nat) tokens w :
  chained tokens → script (S d1) tokens w = script (S d2) tokens w.
Proof.
  intros Hc.
  change (script (S d1) tokens)
    with (dispatch (script d1) (effective_args tokens)).
  change (script (S d2) tokens)
    with (dispatch (script d2) (effective_args tokens)).
  assert (E : effective_args tokens = tokens).
  { destruct Hc as [rest [-> | ->]]; reflexivity. }
  rewrite E. by apply chained_dispatch.
Qed.

End Depth.

End DepthFacts.

(** X8.  Two levels of [main] are all the script ever uses: [build]
    re-enters [main] only for [test] and [install], which do not re-enter
    it, so every deeper bound gives the result of depth two. *)
Theorem main_depth_two_suffices
    (tools : string -> filesystem -> string -> Z * filesystem)
    (glob : filesystem -> string -> string -> list string)
    (SOURCE_DIR platform_system : string) (tmpname : nat -> string)
    (depth : nat) (args : list string) (w : world) :
  main tools glob SOURCE_DIR platform_system tmpname (S (S depth)) args w
  = main tools glob SOURCE_DIR platform_system tmpname 2 args w.
Proof.
  change (main tools glob SOURCE_DIR platform_system tmpname (S (S depth)) args)
    with (parse_and_dispatch tools glob SOURCE_DIR platform_system tmpname
            (main tools glob SOURCE_DIR platform_system tmpname (S depth))
            (effective_args args)).
  change (main tools glob SOURCE_DIR platform_system tmpname 2 args)
    with (parse_and_dispatch tools glob SOURCE_DIR platform_system tmpname
            (main tools glob SOURCE_DIR platform_system tmpname 1)
            (effective_args args)).
  unfold parse_and_dispatch.
  apply BuildFacts.bind_ext. intros tmp w1.
  destruct (Argparse.parse_args _ false (effective_args args)) as [ns|code];
    [| done].
  apply BuildFacts.bind_ext. intros [| | |op] w2; try done.
  apply DepthFacts.operation_of_ext.
  intros tokens w' Hc. by apply DepthFacts.main_chained.
Qed.

(** ** DarwinStrategy.build *)

Section DarwinBuild.

Import MonadFacts.

Variable tools : string -> filesystem -> string -> Z * filesystem.
Variable glob : filesystem -> string -> string -> list string.
Variable SOURCE_DIR : string.
Variable tmpname : nat -> string.

Let main := main tools glob SOURCE_DIR "Darwin" tmpname.

Lemma parse_darwin_test_chain (swiftc build_dir : string) :
  Argparse.starts_with_dash swiftc = false →
  Argparse.starts_with_dash build_dir = false →
  let ns := darwin_test_chain_namespace SOURCE_DIR swiftc build_dir in
  Argparse.parse_sub (test_parser DarwinStrategy SOURCE_DIR)
    ["--swiftc"; swiftc; build_dir] = Parsed ns
  ∧ ns !! "func" = Some (PFunc OpTest)
  ∧ ns !! "build_dir" = Some (PStr build_dir)
  ∧ ns !! "swiftc" = Some (PStr swiftc).
Proof.
  intros Hs Hb ns. subst ns. unfold darwin_test_chain_namespace.
  unfold Argparse.parse_sub.
  remember (Argparse.defaults _ _) as ns0 eqn:Hns0.
  simpl. rewrite Hs. simpl. rewrite Hb. simpl.
  split; [done |].
  assert (F : ns0 !! "func" = Some (PFunc OpTest))
    by (subst ns0; reflexivity).
  repeat split.
  - by rewrite !lookup_insert_ne.
  - by rewrite lookup_insert_eq.
  - rewrite lookup_insert_ne by done. by rewrite lookup_insert_eq.
Qed.

Lemma main_dispatches_darwin_test (depth : nat) (swiftc build_dir : string)
    (w : world) :
  PosixPath.isabs swiftc = true →
  PosixPath.isabs build_dir = true →
  main (S depth) ["test"; "--swiftc"; swiftc; build_dir] w
  = (tmp <- mkdtemp tmpname ;;
     DarwinStrategy_test tools SOURCE_DIR
       (darwin_test_chain_namespace SOURCE_DIR swiftc build_dir)) w.
Proof.
  intros Hs Hb.
  destruct (parse_darwin_test_chain swiftc build_dir)
    as (P & F & _); try by apply AbspathFacts.isabs_not_dash.
  change (main (S depth) ["test"; "--swiftc"; swiftc; build_dir])
    with (parse_and_dispatch tools glob SOURCE_DIR "Darwin" tmpname
            (main depth) ["test"; "--swiftc"; swiftc; build_dir]).
  unfold parse_and_dispatch, bind.
  destruct (mkdtemp tmpname w) as [[tmp|e] w1]; [| done].
  change (active_strategy "Darwin") with DarwinStrategy.
  rewrite ChainParse.parse_args_test, P.
  by rewrite (attr_lookup _ _ _ w1 F).
Qed.

(** X9.  Under Darwin [build] runs [xcodebuild] on the workspace and then, if
    and only if the test flag is set, the test operation on the same
    compiler and build directory.  It never installs: the two install
    paths of the build subcommand have no effect at all. *)
Theorem darwin_build_tests_but_never_installs
    (args : namespace) (swiftc build_dir : string) (t mp lp : pyval)
    (depth : nat) (w : world) :
  PosixPath.isabs (cwd w) = true →
  args !! "swiftc" = Some (PStr swiftc) →
  args !! "build_dir" = Some (PStr build_dir) →
  args !! "test" = Some t →
  let swiftc' := PosixPath.abspath (cwd w) swiftc in
  let build_dir' := PosixPath.abspath (cwd w) build_dir in
  DarwinStrategy_build tools SOURCE_DIR (main (S depth)) args w
  = (run tools (darwin_build_command SOURCE_DIR swiftc' build_dir') ;;
     if truthy t
     then tmp <- mkdtemp tmpname ;;
          DarwinStrategy_test tools SOURCE_DIR
            (darwin_test_chain_namespace SOURCE_DIR swiftc' build_dir')
     else ret tt) w
  ∧ darwin_test_chain_namespace SOURCE_DIR swiftc' build_dir' !! "build_dir"
    = Some (PStr build_dir')
  ∧ DarwinStrategy_build tools SOURCE_DIR (main (S depth))
      (<["module_path" := mp]> (<["lib_path" := lp]> args)) w
    = DarwinStrategy_build tools SOURCE_DIR (main (S depth)) args w.
Proof.
  intros Hcwd Hs Hb Ht swiftc' build_dir'.
  assert (Hs' : PosixPath.isabs swiftc' = true)
    by by apply AbspathFacts.abspath_isabs.
  assert (Hb' : PosixPath.isabs build_dir' = true)
    by by apply AbspathFacts.abspath_isabs.
  assert (Heq : ∀ args0 : namespace,
            args0 !! "swiftc" = Some (PStr swiftc) →
            args0 !! "build_dir" = Some (PStr build_dir) →
            args0 !! "test" = Some t →
            DarwinStrategy_build tools SOURCE_DIR (main (S depth)) args0 w
            = (run tools (darwin_build_command SOURCE_DIR swiftc' build_dir') ;;
               if truthy t
               then tmp <- mkdtemp tmpname ;;
                    DarwinStrategy_test tools SOURCE_DIR
                      (darwin_test_chain_namespace SOURCE_DIR swiftc'
                         build_dir')
               else ret tt) w).
  { intros args0 H1 H2 H3. unfold DarwinStrategy_build.
    rewrite (bind_Return _ _ w _ w (attr_lookup _ _ _ w H1)).
    rewrite (bind_Return _ _ w swiftc' w) by reflexivity.
    rewrite (bind_Return _ _ w _ w (attr_lookup _ _ _ w H2)).
    rewrite (bind_Return _ _ w build_dir' w) by reflexivity.
    apply BuildFacts.bind_ext. intros [] w1.
    rewrite (bind_Return _ _ w1 _ w1 (attr_lookup _ _ _ w1 H3)).
    destruct (truthy t); [| done].
    by apply main_dispatches_darwin_test. }
  split; [by apply Heq |]. split.
  - destruct (parse_darwin_test_chain swiftc' build_dir')
      as (_ & _ & B & _); try by apply AbspathFacts.isabs_not_dash.
    exact B.
  - rewrite (Heq args Hs Hb Ht). apply Heq; by rewrite !lookup_insert_ne.
Qed.

End DarwinBuild.

Lemma darwin_build_tests_but_never_installs_witness :
  DarwinStrategy_build quiet_tools "/src"
    (main quiet_tools two_sources "/src" "Darwin" tmp_names 2)
    (<["module_path" := PNone]> (<["lib_path" := PNone]> darwin_build_args))
    tmp_world
  = DarwinStrategy_build quiet_tools "/src"
      (main quiet_tools two_sources "/src" "Darwin" tmp_names 2)
      darwin_build_args tmp_world.
Proof.
  refine (proj2 (proj2
            (darwin_build_tests_but_never_installs quiet_tools two_sources
               "/src" tmp_names darwin_build_args "/s" "/b" (PBool true)
               PNone PNone 1 tmp_world _ _ _ _))).
  - reflexivity.
  - vm_compute. reflexivity.
  - vm_compute. reflexivity.
  - vm_compute. reflexivity.
Defined.

(** ** Usage errors end [main] before any command *)

Section UsageError.

Import MonadFacts.

Variable tools : string -> filesystem -> string -> Z * filesystem.
Variable glob : filesystem -> string -> string -> list string.
Variable SOURCE_DIR : string.
Variable platform_system : string.
Variable tmpname : nat -> string.

Let main := main tools glob SOURCE_DIR platform_system tmpname.

Lemma generic_parse_without_flag (sub : string) (rest : list string)
    (tmp : string) :
  sub = "build" ∨ sub = "test" →
  (∀ t, t ∈ rest →
        starts_with "--f" t = false ∧ starts_with "--h" t = false
        ∧ starts_with "-h" t = false) →
  Argparse.parse_args (subparsers GenericUnixStrategy SOURCE_DIR tmp) false
    (sub :: rest) = ParseExit 2.
Proof.
  intros Hsub Hrest.
  assert (Hflag : ∀ t, t ∈ rest →
                       starts_with "--foundation-build-dir" t = false).
  { intros t Ht. apply Hrest in Ht as [Ht _].
    exact (PrefixFacts.starts_with_app "--f" "oundation-build-dir" t Ht). }
  assert (Hhelp : ¬ ("-h" ∈ rest ∨ "--help" ∈ rest)).
  { intros [H | H]; apply Hrest in H as (_ & H1 & H2).
    - by apply (PrefixFacts.not_prefixed_ne "-h" "" "-h" H2).
    - by apply (PrefixFacts.not_prefixed_ne "--h" "elp" "--help" H1). }
  destruct Hsub as [-> | ->].
  - rewrite ArgparseFacts.parse_args_build.
    assert (D : Argparse.parse_sub (build_parser GenericUnixStrategy tmp) rest
                = ParseExit 2
                ∨ (Argparse.parse_sub (build_parser GenericUnixStrategy tmp)
                     rest = ParseExit 0
                   ∧ ("-h" ∈ rest ∨ "--help" ∈ rest))).
    { apply omitted_flag_is_usage_error; [simpl; tauto | | | done].
      + intros o a. apply ParserTables.build_flag_only.
      + simpl. tauto. }
    destruct D as [E | [_ E]]; [exact E | tauto].
  - rewrite ChainParse.parse_args_test.
    assert (D : Argparse.parse_sub
                  (test_parser GenericUnixStrategy SOURCE_DIR) rest
                = ParseExit 2
                ∨ (Argparse.parse_sub
                     (test_parser GenericUnixStrategy SOURCE_DIR) rest
                   = ParseExit 0
                   ∧ ("-h" ∈ rest ∨ "--help" ∈ rest))).
    { apply omitted_flag_is_usage_error; [simpl; tauto | | | done].
      + intros o a. apply ParserTables.test_flag_only.
      + simpl. intros p [<- | []]. done. }
    destruct D as [E | [_ E]]; [exact E | tauto].
Qed.

(** X10.  On a host that is not Darwin, a [build] or [test] command line
    in which no token begins like [--foundation-build-dir] (from [--f] on)
    or like a help option ([-h], [--h...]) makes [main] exit with status 2
    as soon as the parsers are built: the only effect is the temporary
    directory made for the default of [--build-dir]; nothing is printed
    and no command is run.  The same holds when no subcommand is named and
    [build] is taken by default. *)
Theorem main_exits_2_without_foundation_build_dir
    (depth : nat) (args : list string) (w : world) :
  platform_system ≠ "Darwin" →
  (∀ t, t ∈ args →
        starts_with "--f" t = false ∧ starts_with "--h" t = false
        ∧ starts_with "-h" t = false) →
  ((∃ sub rest, args = sub :: rest ∧ (sub = "build" ∨ sub = "test"))
   ∨ ∀ a, a ∈ args → a ∉ known_tokens) →
  main (S depth) args w = (_ <- mkdtemp tmpname ;; raise (SystemExit 2)) w
  ∧ stdout (snd (main (S depth) args w)) = stdout w
  ∧ executed (snd (main (S depth) args w)) = executed w.
Proof.
  intros Hp Htok Hshape.
  assert (E : main (S depth) args w
              = (_ <- mkdtemp tmpname ;; raise (SystemExit 2)) w).
  { change (main (S depth) args)
      with (parse_and_dispatch tools glob SOURCE_DIR platform_system tmpname
              (main depth) (effective_args args)).
    unfold parse_and_dispatch.
    apply BuildFacts.bind_ext. intros tmp w1.
    unfold active_strategy. rewrite bool_decide_eq_false_2 by done.
    destruct Hshape as [(sub & rest & -> & Hsub) | Hnone].
    - replace (effective_args (sub :: rest)) with (sub :: rest)
        by (by destruct Hsub as [-> | ->]).
      rewrite generic_parse_without_flag; [done | done |].
      intros t Ht. apply Htok. by right.
    - rewrite (effective_args_default args Hnone).
      by rewrite generic_parse_without_flag; [| by left |]. }
  split; [exact E |]. rewrite E. unfold bind, mkdtemp.
  by destruct (Fs.locate false (fs w) (cwd w) (tmpname (tmp_count w)))
    as [e|[k n|k]].
Qed.

End UsageError.

Lemma main_exits_2_without_foundation_build_dir_witness :
  main quiet_tools two_sources "/src" "Linux" tmp_names 1
    ["--swiftc"; "/usr/bin/swiftc"] tmp_world
  = (_ <- mkdtemp tmp_names ;; raise (SystemExit 2)) tmp_world.
Proof.
  refine (proj1 (main_exits_2_without_foundation_build_dir quiet_tools
                   two_sources "/src" "Linux" tmp_names 0
                   ["--swiftc"; "/usr/bin/swiftc"] tmp_world _ _ _)).
  - discriminate.
  - apply Forall_forall. refine (bool_decide_unpack _ _). vm_compute. exact I.
  - right. apply Forall_forall.
    refine (bool_decide_unpack _ _). vm_compute. exact I.
Defined.

(** ** Installing under generic Unix *)

Module InstallFacts.

Lemma run_inv tools (command : string) (w : world) r (w' : world) :
  run tools command w = (r, w') →
  cwd w' = cwd w ∧ executed w' = executed w ++ [command]
  ∧ (r = Return tt ∨ ∃ status, r = Raise (CalledProcessError status command)).
Proof.
  unfold run, note, print, check_call, bind. cbn [fs cwd stdout executed].
  destruct (Shell.exec tools command (fs w) (cwd w)) as [status f'].
  case_bool_decide; intros [= <- <-]; cbn [cwd executed]; eauto.
Qed.

Lemma mkdirp_inv tools (path : string) (w : world) r (w' : world) :
  mkdirp tools path w = (r, w') →
  cwd w' = cwd w
  ∧ (∃ mk, executed w' = executed w ++ mk
           ∧ (mk = [] ∨ mk = ["mkdir -p " +:+ path])).
Proof.
  unfold mkdirp, bind, os_path_exists.
  destruct (Fs.exists_ (fs w) (cwd w) path); cbn [negb].
  - intros [= <- <-]. split; [done |]. exists []. split; [| by left].
    by rewrite app_nil_r.
  - intros H. apply run_inv in H as (Hc & He & _). split; [done |].
    eexists. split; [exact He | by right].
Qed.

End InstallFacts.

Section Install.

Variable tools : string -> filesystem -> string -> Z * filesystem.

(** X11.  When the generic-Unix [install] returns, its three arguments
    were strings, and what it gave to the shell is, in this order: a
    [mkdir -p] for the module directory and one for the library directory,
    each only where the path did not exist, then exactly three [cp]
    commands, which copy [libXCTest.so] into the library directory and
    [XCTest.swiftmodule] and [XCTest.swiftdoc] into the module directory,
    under their own names and from the build directory.  All paths are
    made absolute against the working directory. *)
Theorem install_copies_three_products (args : namespace) (w w' : world) :
  GenericUnixStrategy_install tools args w = (Return tt, w') →
  ∃ b m l mk_m mk_l,
    args !! "build_dir" = Some (PStr b)
    ∧ args !! "module_install_path" = Some (PStr m)
    ∧ args !! "library_install_path" = Some (PStr l)
    ∧ let B := PosixPath.abspath (cwd w) b in
      let Mo := PosixPath.abspath (cwd w) m in
      let L := PosixPath.abspath (cwd w) l in
      (mk_m = [] ∧ Fs.exists_ (fs w) (cwd w) Mo = true
       ∨ mk_m = ["mkdir -p " +:+ Mo] ∧ Fs.exists_ (fs w) (cwd w) Mo = false)
      ∧ (mk_l = [] ∨ mk_l = ["mkdir -p " +:+ L])
      ∧ executed w'
        = executed w ++ mk_m ++ mk_l
          ++ [ cp_command (PosixPath.join B ["libXCTest.so"])
                 (PosixPath.join L ["libXCTest.so"]);
               cp_command (PosixPath.join B ["XCTest.swiftmodule"])
                 (PosixPath.join Mo ["XCTest.swiftmodule"]);
               cp_command (PosixPath.join B ["XCTest.swiftdoc"])
                 (PosixPath.join Mo ["XCTest.swiftdoc"]) ].
Proof.
  unfold GenericUnixStrategy_install, _mkdirp. intros H.
  apply BuildFacts.bind_inv in H as (v1 & w1 & H1 & H).
  apply BuildFacts.attr_inv in H1 as [-> A1].
  apply BuildFacts.bind_inv in H as (B & w1 & H1 & H).
  apply BuildFacts.abspath_of_inv in H1 as [-> (b & -> & ->)].
  apply BuildFacts.bind_inv in H as (v2 & w1 & H1 & H).
  apply BuildFacts.attr_inv in H1 as [-> A2].
  apply BuildFacts.bind_inv in H as (Mo & w1 & H1 & H).
  apply BuildFacts.abspath_of_inv in H1 as [-> (m & -> & ->)].
  apply BuildFacts.bind_inv in H as (v3 & w1 & H1 & H).
  apply BuildFacts.attr_inv in H1 as [-> A3].
  apply BuildFacts.bind_inv in H as (L & w1 & H1 & H).
  apply BuildFacts.abspath_of_inv in H1 as [-> (l & -> & ->)].
  apply BuildFacts.bind_inv in H as ([] & w1 & H1 & H).
  apply BuildFacts.bind_inv in H as ([] & w2 & H2 & H).
  apply BuildFacts.bind_inv in H as ([] & w3 & H3 & H).
  apply BuildFacts.bind_inv in H as ([] & w4 & H4 & H).
  apply InstallFacts.run_inv in H as (_ & E5 & _).
  apply InstallFacts.run_inv in H4 as (_ & E4 & _).
  apply InstallFacts.run_inv in H3 as (_ & E3 & _).
  apply InstallFacts.mkdirp_inv in H2 as (_ & mk_l & E2 & Hl).
  assert (Hm : ∃ mk_m, executed w1 = executed w ++ mk_m
                 ∧ (mk_m = []
                    ∧ Fs.exists_ (fs w) (cwd w)
                        (PosixPath.abspath (cwd w) m) = true
                    ∨ mk_m = ["mkdir -p " +:+ PosixPath.abspath (cwd w) m]
                      ∧ Fs.exists_ (fs w) (cwd w)
                          (PosixPath.abspath (cwd w) m) = false)).
  { revert H1. unfold mkdirp, bind, os_path_exists.
    destruct (Fs.exists_ (fs w) (cwd w) (PosixPath.abspath (cwd w) m));
      cbn [negb].
    - intros [= <-]. exists []. split; [by rewrite app_nil_r | by left].
    - intros H1. apply InstallFacts.run_inv in H1 as (_ & E1 & _).
      eexists. split; [exact E1 | by right]. }
  destruct Hm as (mk_m & E1 & Hm).
  exists b, m, l, mk_m, mk_l.
  split; [done |]. split; [done |]. split; [done |].
  cbv zeta. split; [exact Hm |]. split; [exact Hl |].
  rewrite E5, E4, E3, E2, E1. by rewrite <- !app_assoc.
Qed.

(** X12.  An [install] namespace in which the module or the library
    install path is [None], as the parser leaves an option that was not
    given, makes the generic-Unix [install] raise before it makes a
    directory or copies anything: the world is the one it started in, and
    the error is neither a parser exit nor a failed command. *)
Theorem install_without_a_path_raises_before_any_effect
    (args : namespace) (w : world) :
  args !! "module_install_path" = Some PNone
  ∨ args !! "library_install_path" = Some PNone →
  ∃ e, GenericUnixStrategy_install tools args w = (Raise e, w)
       ∧ (∀ code, e ≠ SystemExit code)
       ∧ (∀ status command, e ≠ CalledProcessError status command).
Proof.
  intros Hnone. unfold GenericUnixStrategy_install, bind, attr.
  destruct (args !! "build_dir") as [v1|]; [| by eexists].
  unfold ret at 1. destruct v1 as [|b| |]; try by eexists.
  cbn [abspath_of os_path_abspath].
  destruct (args !! "module_install_path") as [v2|]; [| by eexists].
  unfold ret at 1. destruct v2 as [|m| |]; try by eexists.
  cbn [abspath_of os_path_abspath].
  destruct Hnone as [Hn | Hn]; [done |]. rewrite Hn.
  by eexists.
Qed.

End Install.

Lemma install_copies_three_products_witness :
  ∃ w', GenericUnixStrategy_install quiet_tools full_install_args tmp_world
        = (Return tt, w')
        ∧ executed w'
          = ["mkdir -p /m"; "mkdir -p /l"; "cp /b/libXCTest.so /l/libXCTest.so";
             "cp /b/XCTest.swiftmodule /m/XCTest.swiftmodule";
             "cp /b/XCTest.swiftdoc /m/XCTest.swiftdoc"].
Proof.
  eexists. split; [vm_compute; reflexivity |].
  destruct (install_copies_three_products quiet_tools full_install_args
              tmp_world
              (snd (GenericUnixStrategy_install quiet_tools full_install_args
                      tmp_world)))
    as (b & m & l & mk_m & mk_l & _); [vm_compute; reflexivity |].
  vm_compute. reflexivity.
Defined.

Lemma install_without_a_path_raises_before_any_effect_witness :
  ∃ e, GenericUnixStrategy_install quiet_tools
         (parsed (Argparse.parse_sub install_parser ["/b"; "-m"; "/m"]))
         tmp_world = (Raise e, tmp_world).
Proof.
  destruct (install_without_a_path_raises_before_any_effect quiet_tools
              (parsed (Argparse.parse_sub install_parser ["/b"; "-m"; "/m"]))
              tmp_world) as (e & He & _).
  - right. vm_compute. reflexivity.
  - by exists e.
Defined.

(** ** The temporary directory *)

Module TmpFacts.

Lemma asks_only_then {A B} (m : M A) (k : A → M B) :
  asks_only m → (∀ a, asks_only (k a)) → asks_only (bind m k).
Proof.
  intros Hm Hk w. unfold bind. specialize (Hm w).
  destruct (m w) as [[a|e] w1]; cbn [snd] in *; [| done].
  specialize (Hk a w1). lia.
Qed.

Lemma asks_only_try {A} (m : M A) (h : errno → M A) :
  asks_only m → (∀ e, asks_only (h e)) → asks_only (try_OSError m h).
Proof.
  intros Hm Hh w. unfold try_OSError. specialize (Hm w).
  destruct (m w) as [[a|e] w1]; cbn [snd] in *; [done |].
  destruct e; try done. specialize (Hh e w1). lia.
Qed.

Lemma asks_only_os_call f : asks_only (os_call f).
Proof. intros w. unfold os_call. by destruct (f (fs w) (cwd w)). Qed.

Lemma asks_only_run tools command : asks_only (run tools command).
Proof.
  intros w. unfold run, note, print, check_call, bind.
  cbn [fs cwd stdout executed tmp_count].
  destruct (Shell.exec tools command (fs w) (cwd w)) as [status f'].
  by case_bool_decide.
Qed.

Lemma asks_only_mkdtemp tmpname : asks_only (mkdtemp tmpname).
Proof.
  intros w. unfold mkdtemp.
  destruct (Fs.locate false (fs w) (cwd w) (tmpname (tmp_count w)))
    as [e|[k n|k]]; cbn [snd tmp_count]; lia.
Qed.

End TmpFacts.

(** X13.  Every entry into [main] makes a temporary directory before it
    looks at its arguments, whichever subcommand is named and whether or
    not [--build-dir] is given: when the name the host offers is free, the
    run ends with at least one more directory asked for than it began
    with; when making the directory fails, [main] ends with that error
    and parses nothing. *)
Theorem main_makes_a_temporary_directory_first
    (tools : string -> filesystem -> string -> Z * filesystem)
    (glob : filesystem -> string -> string -> list string)
    (SOURCE_DIR platform_system : string) (tmpname : nat -> string)
    (depth : nat) (args : list string) (w : world) :
  (∀ key, Fs.locate false (fs w) (cwd w) (tmpname (tmp_count w))
          = inr (Missing key) →
          (S (tmp_count w)
           ≤ tmp_count (snd (main tools glob SOURCE_DIR platform_system
                               tmpname (S depth) args w)))%nat)
  ∧ (∀ e w', mkdtemp tmpname w = (Raise e, w') →
             main tools glob SOURCE_DIR platform_system tmpname (S depth)
               args w = (Raise e, w')).
Proof.
  assert (H1 : ∀ A (a : A), asks_only (ret a))
    by (intros A a w0; apply Nat.le_refl).
  assert (H2 : ∀ A e, (∀ st c, e ≠ CalledProcessError st c) →
                      asks_only (@raise A e))
    by (intros A e _ w0; apply Nat.le_refl).
  assert (H3 : ∀ A B (m : M A) (k : A → M B),
            asks_only m → (∀ a, asks_only (k a)) → asks_only (bind m k))
    by (intros; by apply TmpFacts.asks_only_then).
  assert (H4 : ∀ A (m : M A) h,
            asks_only m → (∀ e, asks_only (h e)) → asks_only (try_OSError m h))
    by (intros; by apply TmpFacts.asks_only_try).
  assert (H5 : ∀ A (f : world → A), asks_only (λ w, (Return (f w), w)))
    by (intros A f w0; apply Nat.le_refl).
  assert (H6 : ∀ line, asks_only (print line))
    by (intros line w0; apply Nat.le_refl).
  pose proof TmpFacts.asks_only_os_call as H7.
  pose proof (TmpFacts.asks_only_run tools) as H8.
  pose proof (TmpFacts.asks_only_mkdtemp tmpname) as H9.
  change (main tools glob SOURCE_DIR platform_system tmpname (S depth) args)
    with (parse_and_dispatch tools glob SOURCE_DIR platform_system tmpname
            (main tools glob SOURCE_DIR platform_system tmpname depth)
            (effective_args args)).
  unfold parse_and_dispatch. split.
  - intros key Hfree. unfold bind at 1.
    assert (Hmk : mkdtemp tmpname w
                  = (Return (tmpname (tmp_count w)),
                     World (<[key := Dir]> (fs w)) (cwd w) (stdout w)
                       (executed w) (S (tmp_count w))))
      by (unfold mkdtemp; by rewrite Hfree).
    rewrite Hmk.
    exact (P_dispatch tools glob SOURCE_DIR platform_system (@asks_only)
             H1 H2 H3 H4 H5 H7 H6 H8
             (main tools glob SOURCE_DIR platform_system tmpname depth)
             (effective_args args) (tmpname (tmp_count w))
             (P_main tools glob SOURCE_DIR platform_system tmpname
                (@asks_only) H1 H2 H3 H4 H5 H7 H6 H8 H9 depth)
             (World (<[key := Dir]> (fs w)) (cwd w) (stdout w)
                (executed w) (S (tmp_count w)))).
  - intros e w' H. unfold bind. by rewrite H.
Qed.

Lemma main_makes_a_temporary_directory_first_witness :
  (1 ≤ tmp_count (snd (main quiet_tools two_sources "/src" "Linux" tmp_names
                         2 ["install"; "/b"; "-m"; "/m"; "-l"; "/l"]
                         tmp_world)))%nat.
Proof.
  eapply (proj1 (main_makes_a_temporary_directory_first quiet_tools
                   two_sources "/src" "Linux" tmp_names 1
                   ["install"; "/b"; "-m"; "/m"; "-l"; "/l"] tmp_world)).
  vm_compute. reflexivity.
Defined.
